(** * syno: a client for the Synology NAS web APIs

    A shallow embedding of [syno.go] and the verification of its
    request-building and response-decoding contract.

    Layout: the Go library functions the client relies on ([strings],
    [strconv], [net/url]) are modelled first, then the package itself
    ([Error], [dropEmpty], [Request], [Client], [Call], [Do], the client
    options, [NewClient], and the typed request objects); the theorems
    follow the definitions. *)

From Stdlib Require Import ZArith Ascii.
From stdpp Require Import gmap strings list fin_maps sorting pretty.

(** ** Go's [strings] and [strconv] *)

(** [strings.Join(elems, sep)]. *)
Fixpoint strings_Join (elems : list string) (sep : string) : string :=
  match elems with
  | [] => ""
  | e :: rest =>
      match rest with
      | [] => e
      | _ :: _ => e +:+ sep +:+ strings_Join rest sep
      end
  end.

(** [strings.Split(s, sep)] for a one-byte separator: the result is never
    empty, [Split("", "/")] is [[""]]. *)
Fixpoint strings_Split (s : string) (sep : ascii) : list string :=
  match s with
  | "" => [""]
  | String c s' =>
      if decide (c = sep) then "" :: strings_Split s' sep
      else match strings_Split s' sep with
           | [] => [String c ""]
           | w :: ws => String c w :: ws
           end
  end.

Fixpoint LastIndex_from (s : string) (c : ascii) (i last : Z) : Z :=
  match s with
  | "" => last
  | String a s' =>
      LastIndex_from s' c (i + 1)%Z (if decide (a = c) then i else last)
  end.

(** [strings.LastIndex(s, sep)] for a one-byte separator; -1 when absent. *)
Definition strings_LastIndex (s : string) (c : ascii) : Z :=
  LastIndex_from s c 0%Z (-1)%Z.

(** The slice expression [s[:n]]. *)
Definition slice_to (s : string) (n : Z) : string :=
  String.substring 0 (Z.to_nat n) s.

(** [strings.TrimPrefix(s, "/")]. *)
Definition strings_TrimPrefix_slash (s : string) : string :=
  match s with
  | String "/" s' => s'
  | _ => s
  end.

(** [strconv.Itoa] and the [%d] verb: decimal digits, a leading minus sign for
    negative numbers. *)
Definition strconv_Itoa (n : Z) : string := pretty n.

(** ** Go's [net/url] *)

Module url.

(** *** Escaping *)

(** The two escaping modes the client reaches: paths (through
    [ResolveReference]) and query components (through [Values.Encode]). *)
Inductive encoding := encodePath | encodeQueryComponent.

Global Instance encoding_eq_dec : EqDecision encoding.
Proof. solve_decision. Defined.

Definition byte_between (lo hi c : ascii) : bool :=
  ((N_of_ascii lo <=? N_of_ascii c) && (N_of_ascii c <=? N_of_ascii hi))%N.

Fixpoint byte_in (c : ascii) (s : string) : bool :=
  match s with
  | "" => false
  | String a s' => if decide (c = a) then true else byte_in c s'
  end.

Definition is_alnum (c : ascii) : bool :=
  byte_between "a" "z" c || byte_between "A" "Z" c || byte_between "0" "9" c.

(** [shouldEscape(c, mode)]: unreserved bytes (RFC 3986, 2.3) are never
    escaped; of the reserved bytes a path keeps all but [?], a query
    component keeps none; every other byte is escaped. *)
Definition shouldEscape (c : ascii) (mode : encoding) : bool :=
  if is_alnum c then false
  else if byte_in c "-_.~" then false
  else if byte_in c "$&+,/:;=?@" then
    match mode with
    | encodePath => bool_decide (c = "?"%char)
    | encodeQueryComponent => true
    end
  else true.

Definition upperhex (n : N) : ascii :=
  default "0"%char (String.get (N.to_nat n) "0123456789ABCDEF").

(** [escape(s, mode)]: a space of a query component becomes [+], any other
    byte to escape becomes [%XX]. *)
Fixpoint escape (s : string) (mode : encoding) : string :=
  match s with
  | "" => ""
  | String c s' =>
      if bool_decide (c = " "%char) && bool_decide (mode = encodeQueryComponent)
      then String "+" (escape s' mode)
      else if shouldEscape c mode
      then String "%" (String (upperhex (N.shiftr (N_of_ascii c) 4))
                      (String (upperhex (N.land (N_of_ascii c) 15))
                         (escape s' mode)))
      else String c (escape s' mode)
  end.

Definition QueryEscape (s : string) : string := escape s encodeQueryComponent.

Definition ishex (c : ascii) : bool :=
  byte_between "0" "9" c || byte_between "a" "f" c || byte_between "A" "F" c.

Definition unhex (c : ascii) : N :=
  if byte_between "0" "9" c then (N_of_ascii c - N_of_ascii "0")%N
  else if byte_between "a" "f" c then (N_of_ascii c - N_of_ascii "a" + 10)%N
  else if byte_between "A" "F" c then (N_of_ascii c - N_of_ascii "A" + 10)%N
  else 0%N.

(** [unescape(s, mode)]: [None] stands for the [EscapeError] returned on a
    [%] that is not followed by two hex digits. *)
Fixpoint unescape (s : string) (mode : encoding) : option string :=
  match s with
  | "" => Some ""
  | String "%" (String a (String b rest)) =>
      if ishex a && ishex b
      then String (ascii_of_N (N.lor (N.shiftl (unhex a) 4) (unhex b)))
             <$> unescape rest mode
      else None
  | String "%" _ => None
  | String "+" rest =>
      String (if bool_decide (mode = encodeQueryComponent)
              then " "%char else "+"%char) <$> unescape rest mode
  | String c rest => String c <$> unescape rest mode
  end.

(** [validEncoded(s, mode)]. *)
Fixpoint validEncoded (s : string) (mode : encoding) : bool :=
  match s with
  | "" => true
  | String c s' =>
      (byte_in c "!$&'()*+,;=:@[]%" || negb (shouldEscape c mode))
      && validEncoded s' mode
  end.

(** *** Values *)

(** [url.Values] is [map[string][]string]. *)
Abbreviation Values := (gmap string (list string)).

(** [v.Get]-like read of all values of a key: indexing a Go map at a
    missing key yields the nil slice. *)
Definition values_of (v : Values) (key : string) : list string :=
  default [] (v !! key).

(** [v.Add(key, value)]: [v[key] = append(v[key], value)]. *)
Definition Add (key value : string) (v : Values) : Values :=
  <[key := values_of v key ++ [value]]> v.

(** [v.Del(key)]. *)
Definition Del (key : string) (v : Values) : Values := delete key v.

(** The [key=value] components [Encode] writes for one key. *)
Definition encode_key (v : Values) (k : string) : list string :=
  (λ e, QueryEscape k +:+ "=" +:+ QueryEscape e) <$> values_of v k.

(** The components of the encoded query, keys in sorted order. *)
Definition encode_components (v : Values) : list string :=
  merge_sort String.le (map_to_list v).*1 ≫= encode_key v.

(** [v.Encode()]: the components joined by [&] (each component is non-empty,
    so writing [&] before every component but the first is a join). *)
Definition Encode (v : Values) : string :=
  strings_Join (encode_components v) "&".

(** *** URL *)

(** [url.Userinfo]. *)
Record Userinfo := {
  username : string;
  password : string;
  passwordSet : bool;
}.

(** [url.URL]; [User] is a pointer, [None] is nil. *)
Record URL := {
  Scheme : string;
  Opaque : string;
  User : option Userinfo;
  Host : string;
  Path : string;
  RawPath : string;
  ForceQuery : bool;
  RawQuery : string;
  Fragment : string;
  RawFragment : string;
}.

(** The zero value [url.URL{}]. *)
Definition URL_zero : URL :=
  {| Scheme := ""; Opaque := ""; User := None; Host := ""; Path := "";
     RawPath := ""; ForceQuery := false; RawQuery := ""; Fragment := "";
     RawFragment := "" |}.

(** Field assignments [u.F = x]. *)
Definition set_Scheme (x : string) (u : URL) : URL :=
  {| Scheme := x; Opaque := Opaque u; User := User u; Host := Host u;
     Path := Path u; RawPath := RawPath u; ForceQuery := ForceQuery u;
     RawQuery := RawQuery u; Fragment := Fragment u;
     RawFragment := RawFragment u |}.
Definition set_Opaque (x : string) (u : URL) : URL :=
  {| Scheme := Scheme u; Opaque := x; User := User u; Host := Host u;
     Path := Path u; RawPath := RawPath u; ForceQuery := ForceQuery u;
     RawQuery := RawQuery u; Fragment := Fragment u;
     RawFragment := RawFragment u |}.
Definition set_User (x : option Userinfo) (u : URL) : URL :=
  {| Scheme := Scheme u; Opaque := Opaque u; User := x; Host := Host u;
     Path := Path u; RawPath := RawPath u; ForceQuery := ForceQuery u;
     RawQuery := RawQuery u; Fragment := Fragment u;
     RawFragment := RawFragment u |}.
Definition set_Host (x : string) (u : URL) : URL :=
  {| Scheme := Scheme u; Opaque := Opaque u; User := User u; Host := x;
     Path := Path u; RawPath := RawPath u; ForceQuery := ForceQuery u;
     RawQuery := RawQuery u; Fragment := Fragment u;
     RawFragment := RawFragment u |}.
Definition set_Path (x : string) (u : URL) : URL :=
  {| Scheme := Scheme u; Opaque := Opaque u; User := User u; Host := Host u;
     Path := x; RawPath := RawPath u; ForceQuery := ForceQuery u;
     RawQuery := RawQuery u; Fragment := Fragment u;
     RawFragment := RawFragment u |}.
Definition set_RawPath (x : string) (u : URL) : URL :=
  {| Scheme := Scheme u; Opaque := Opaque u; User := User u; Host := Host u;
     Path := Path u; RawPath := x; ForceQuery := ForceQuery u;
     RawQuery := RawQuery u; Fragment := Fragment u;
     RawFragment := RawFragment u |}.
Definition set_RawQuery (x : string) (u : URL) : URL :=
  {| Scheme := Scheme u; Opaque := Opaque u; User := User u; Host := Host u;
     Path := Path u; RawPath := RawPath u; ForceQuery := ForceQuery u;
     RawQuery := x; Fragment := Fragment u; RawFragment := RawFragment u |}.
Definition set_Fragment (x : string) (u : URL) : URL :=
  {| Scheme := Scheme u; Opaque := Opaque u; User := User u; Host := Host u;
     Path := Path u; RawPath := RawPath u; ForceQuery := ForceQuery u;
     RawQuery := RawQuery u; Fragment := x; RawFragment := RawFragment u |}.
Definition set_RawFragment (x : string) (u : URL) : URL :=
  {| Scheme := Scheme u; Opaque := Opaque u; User := User u; Host := Host u;
     Path := Path u; RawPath := RawPath u; ForceQuery := ForceQuery u;
     RawQuery := RawQuery u; Fragment := Fragment u; RawFragment := x |}.

(** [u.IsAbs()]: the URL has a scheme. *)
Definition IsAbs (u : URL) : bool := negb (bool_decide (Scheme u = "")).

(** [u.EscapedPath()]: [RawPath] when it is a valid encoding of [Path],
    otherwise the default encoding of [Path]. *)
Definition EscapedPath (u : URL) : string :=
  if negb (bool_decide (RawPath u = ""))
     && validEncoded (RawPath u) encodePath
     && bool_decide (unescape (RawPath u) encodePath = Some (Path u))
  then RawPath u
  else if bool_decide (Path u = "*") then "*"
  else escape (Path u) encodePath.

(** [u.setPath(p)]; on an unescape error the URL is left as it was (the
    caller below drops the error). *)
Definition setPath (p : string) (u : URL) : URL :=
  match unescape p encodePath with
  | None => u
  | Some path =>
      set_RawPath (if bool_decide (escape path encodePath = p) then "" else p)
        (set_Path path u)
  end.

(** One step of the loop of [resolvePath] over the elements of the split
    path: [.] is dropped, [..] removes the last element kept so far. *)
Definition resolve_step (dst : list string) (elem : string) : list string :=
  if bool_decide (elem = ".") then dst
  else if bool_decide (elem = "..") then removelast dst
  else dst ++ [elem].

(** [resolvePath(base, ref)], RFC 3986 sections 5.2.3 and 5.2.4. *)
Definition resolvePath (base ref : string) : string :=
  let full :=
    match ref with
    | "" => base
    | String c _ =>
        if bool_decide (c = "/"%char) then ref
        else slice_to base (strings_LastIndex base "/" + 1)%Z +:+ ref
    end in
  if bool_decide (full = "") then ""
  else
    let src := strings_Split full "/" in
    let dst := foldl resolve_step [] src in
    let dst :=
      if bool_decide (last src = Some ".") || bool_decide (last src = Some "..")
      then dst ++ [""] else dst in
    "/" +:+ strings_TrimPrefix_slash (strings_Join dst "/").

(** [u.ResolveReference(ref)], RFC 3986 section 5.2. *)
Definition ResolveReference (u ref : URL) : URL :=
  let url := ref in
  let url := if bool_decide (Scheme ref = "")
             then set_Scheme (Scheme u) url else url in
  if negb (bool_decide (Scheme ref = "")) || negb (bool_decide (Host ref = ""))
     || bool_decide (is_Some (User ref))
  then setPath (resolvePath (EscapedPath ref) "") url
  else if negb (bool_decide (Opaque ref = ""))
  then set_Path "" (set_Host "" (set_User None url))
  else
    let url :=
      if bool_decide (Path ref = "") && negb (ForceQuery ref)
         && bool_decide (RawQuery ref = "")
      then
        let url := set_RawQuery (RawQuery u) url in
        if bool_decide (Fragment ref = "")
        then set_RawFragment (RawFragment u) (set_Fragment (Fragment u) url)
        else url
      else url in
    if bool_decide (Path ref = "") && negb (bool_decide (Opaque u = ""))
    then set_Path "" (set_Host "" (set_User None (set_Opaque (Opaque u) url)))
    else
      let url := set_User (User u) (set_Host (Host u) url) in
      setPath (resolvePath (EscapedPath u) (EscapedPath ref)) url.

End url.

(** ** Package [syno]: errors *)

(** [type Error int]: the integer error code returned by the API. *)
Definition Error : Type := Z.

Definition ErrorUnknown : Error := 100%Z.
Definition ErrorInvalidParameter : Error := 101%Z.
Definition ErrorInvalidAPI : Error := 102%Z.
Definition ErrorInvalidMethod : Error := 103%Z.
Definition ErrorUnsupportedVersion : Error := 104%Z.
Definition ErrorPermissionDenied : Error := 105%Z.
Definition ErrorSessionTimeout : Error := 106%Z.
Definition ErrorSessionInterruptedDuplicateLogin : Error := 107%Z.

Definition errStrings : gmap Z string :=
  <[ErrorUnknown := "unknown API error"]>
  (<[ErrorInvalidParameter := "invalid parameter"]>
  (<[ErrorInvalidAPI := "invalid API"]>
  (<[ErrorInvalidMethod := "invalid method"]>
  (<[ErrorUnsupportedVersion := "unsupported version"]>
  (<[ErrorPermissionDenied := "permission denined"]>
  (<[ErrorSessionTimeout := "session timeout error"]>
  (<[ErrorSessionInterruptedDuplicateLogin :=
       "session interrupted with duplicated login"]> ∅))))))).

(** The method [func (e Error) Error() string]. [fmt.Sprint] puts a space
    between two operands only when neither is a string, so none is added
    here. *)
Definition Error_Error (e : Error) : string :=
  match errStrings !! e with
  | Some s => "syno: " +:+ s +:+ " (" +:+ strconv_Itoa e +:+ ")"
  | None => "syno: error code " +:+ strconv_Itoa e
  end.

(** Go's [error] interface, as far as the package meets it: its own [Error]
    codes, its own [errURLMisconfigured], and the errors of its collaborators
    (transport, [encoding/json], [url.Parse], a caller's [MarshalRequest] or
    option), which it only passes on and which are told apart by a tag. *)
Inductive error :=
  | APIError (code : Error)
  | errURLMisconfigured
  | ForeignError (tag : string).

(** ** Package [syno]: requests *)

(** [dropEmpty]: ranges over the map and deletes, from that same map, every
    key bound to exactly one empty string. *)
Definition dropEmpty (p : url.Values) : url.Values :=
  map_fold
    (λ k v p,
       if bool_decide (length v = 1) && bool_decide (v !! 0 = Some "")
       then url.Del k p else p)
    p p.

Record Request := {
  Path : string;
  API : string;
  Version : string;
  Method : string;
  Params : url.Values;
  SID : string;
}.

(** The interface [MarshalRequest]: the method returns a request pointer
    and an error, either of which may be nil. *)
Class MarshalRequest (T : Type) :=
  marshalRequest : T → option Request * option error.

(** ** Package [syno]: the typed request objects *)

Definition authLoginPath : string := "/webapi/auth.cgi".
Definition authLoginAPI : string := "SYNO.API.Auth".
Definition authLoginVersion : string := "3".

Record AuthLogin := {
  Account : string;
  Password : string;
  Session : string;
  Format : string;
  OTPCode : string;
}.

(** The assignment [l.Format = x]. *)
Definition set_Format (x : string) (l : AuthLogin) : AuthLogin :=
  {| Account := Account l; Password := Password l; Session := Session l;
     Format := x; OTPCode := OTPCode l |}.

Global Instance AuthLogin_MarshalRequest : MarshalRequest AuthLogin := λ a,
  (Some {| Path := authLoginPath;
           API := authLoginAPI;
           Version := authLoginVersion;
           Method := "login";
           Params := dropEmpty
             (<["account" := [Account a]]>
             (<["passwd" := [Password a]]>
             (<["session" := [Session a]]>
             (<["format" := [Format a]]>
             (<["otp_code" := [OTPCode a]]> ∅)))));
           SID := "" |},
   None).

Record AuthLoginResponse := {
  AuthLoginResponse_SID : string;
  Cookie : string;
}.

Definition downloadTaskPath : string := "/webapi/DownloadStation/task.cgi".
Definition downloadTaskAPI : string := "SYNO.DownloadStation.Task".
Definition downloadTaskVersion : string := "1".

Record DownloadTaskList := {
  Offset : Z;
  Limit : Z;
  Additional : list string;
}.

Global Instance DownloadTaskList_MarshalRequest
  : MarshalRequest DownloadTaskList := λ d,
  let v : url.Values := ∅ in
  let v := if negb (bool_decide (Offset d = 0%Z))
           then url.Add "offset" (strconv_Itoa (Offset d)) v else v in
  let v := if negb (bool_decide (Limit d = 0%Z))
           then url.Add "limit" (strconv_Itoa (Limit d)) v else v in
  let v := if bool_decide (0 < length (Additional d))
           then url.Add "additional" (strings_Join (Additional d) ",") v
           else v in
  (Some {| Path := downloadTaskPath;
           API := downloadTaskAPI;
           Version := downloadTaskVersion;
           Method := "list";
           Params := v;
           SID := "" |},
   None).

Record DownloadTaskCreate := {
  URI : string;
  Username : string;
  DownloadTaskCreate_Password : string;
  UnzipPassword : string;
  Destination : string;
}.

Global Instance DownloadTaskCreate_MarshalRequest
  : MarshalRequest DownloadTaskCreate := λ d,
  (Some {| Path := downloadTaskPath;
           API := downloadTaskAPI;
           Version := downloadTaskVersion;
           Method := "create";
           Params := dropEmpty
             (<["uri" := [URI d]]>
             (<["username" := [Username d]]>
             (<["password" := [DownloadTaskCreate_Password d]]>
             (<["unzip_password" := [UnzipPassword d]]>
             (<["destination" := [Destination d]]> ∅)))));
           SID := "" |},
   None).

(** ** The HTTP transport *)

(** [http.Request] as [Do] builds it. *)
Record HttpRequest := {
  http_Method : string;
  http_URL : url.URL;
  http_Header : gmap string (list string);
}.

(** The network as the client sees it: the requests that went through a
    transport so far, oldest first. *)
Abbreviation World := (list HttpRequest).

(** [http.RoundTripper]: given the requests made so far, a request is
    answered with a response body or with an error, as the contract of
    [RoundTrip] has it; a transport that returns neither, or a response
    without body, is outside this model. *)
Definition RoundTripper : Type := World → HttpRequest → string + error.

(** The response envelope [Do] decodes into. *)
Record synologyResponse := {
  Success : bool;
  Error_Code : Error;
  Data : string;
}.

(** The library functions the package calls and this development leaves
    abstract: the JSON decoder for the envelope, [url.Parse] (a nil URL and an
    error on failure), and [http.DefaultTransport]. *)
Class Platform := {
  json_Decode : string → synologyResponse + error;
  url_Parse : string → option url.URL * option error;
  http_DefaultTransport : RoundTripper;
}.

(** [json.Unmarshal(data, &d)] for a destination of type [D]: the destination
    as it is left, and the error if any. *)
Class Unmarshaler (D : Type) :=
  json_Unmarshal : string → D → D * option error.

(** ** Computations that talk to the network *)

(** A call either returns or panics (a nil dereference). *)
Inductive outcome (A : Type) :=
  | Returns (a : A)
  | Panics.
Arguments Returns {A} a.
Arguments Panics {A}.

Definition M (A : Type) : Type := World → World * outcome A.

Definition ret {A} (a : A) : M A := λ w, (w, Returns a).

Definition panic {A} : M A := λ w, (w, Panics).

Definition bind {A B} (m : M A) (k : A → M B) : M B :=
  λ w, match m w with
       | (w', Returns a) => k a w'
       | (w', Panics) => (w', Panics)
       end.

Notation "'let*' x ':=' m 'in' k" := (bind m (λ x, k))
  (at level 10, x pattern, m at level 100, k at level 200).

(** [t.RoundTrip(hreq)]: the request is recorded and answered. *)
Definition RoundTrip (t : RoundTripper) (hreq : HttpRequest)
  : M (string + error) :=
  λ w, (w ++ [hreq], Returns (t w hreq)).

(** ** Package [syno]: the client *)

(** [url] and [transport] are a pointer and an interface: [None] is nil. *)
Record Client := {
  url : option url.URL;
  transport : option RoundTripper;
  sid : string;
}.

(** The loop [for _, e := range l { v.Add(k, e) }]. *)
Definition add_all (k : string) (l : list string) (v : url.Values)
  : url.Values :=
  foldl (λ v e, url.Add k e v) v l.

(** The parameter set [v] that [Do] encodes: [api], [version], [method], the
    session id if one is resolved, then every value of [r.Params]. *)
Definition outgoing (c : Client) (r : Request) : url.Values :=
  let v := ∅ in
  let v := url.Add "api" (API r) v in
  let v := url.Add "version" (Version r) v in
  let v := url.Add "method" (Method r) v in
  let v :=
    if negb (bool_decide (SID r = "")) then url.Add "_sid" (SID r) v
    else if negb (bool_decide (sid c = "")) then url.Add "_sid" (sid c) v
    else v in
  map_fold add_all v (Params r).

(** The [http.Request] that [Do] hands to the transport. *)
Definition http_request (u : url.URL) (c : Client) (r : Request)
  : HttpRequest :=
  {| http_Method := "GET";
     http_URL :=
       url.ResolveReference u
         (url.set_RawQuery (url.Encode (outgoing c r))
            (url.set_Path (Path r) url.URL_zero));
     http_Header := ∅ |}.

Section client.
Context `{Platform}.

(** [Do]: the destination [data] is [None] for nil; the result pairs the
    destination as it is left with the error returned. [r] is the request
    the pointer refers to: a nil request, which [Do] dereferences before
    anything is sent, is handled where [Call] passes the pointer on. *)
Definition Do {D} `{Unmarshaler D} (c : Client) (r : Request)
    (data : option D) : M (option D * option error) :=
  match url c with
  | None => panic
  | Some u =>
      let hreq := http_request u c r in
      match transport c with
      | None => panic
      | Some t =>
          let* hres := RoundTrip t hreq in
          match hres with
          | inr err => ret (data, Some err)
          | inl body =>
              match json_Decode body with
              | inr err => ret (data, Some err)
              | inl resp =>
                  if negb (Success resp)
                  then ret (data, Some (APIError (Error_Code resp)))
                  else
                    match data with
                    | Some d =>
                        let '(d', err) := json_Unmarshal (Data resp) d in
                        ret (Some d', err)
                    | None => ret (None, None)
                    end
              end
          end
      end
  end.

(** [Call]; [Do] dereferences its request first thing, so a nil request
    with a nil error panics. *)
Definition Call {T D} `{MarshalRequest T} `{Unmarshaler D} (c : Client)
    (r : T) (data : option D) : M (option D * option error) :=
  match marshalRequest r with
  | (_, Some err) => ret (data, Some err)
  | (Some req, None) => Do c req data
  | (None, None) => panic
  end.

(** *** Client options *)

(** [ClientOption], a function from a client pointer to an error: an
    option updates the client it is given and may fail. *)
Definition ClientOption : Type := Client → M (Client * option error).

Definition set_url (u : option url.URL) (c : Client) : Client :=
  {| url := u; transport := transport c; sid := sid c |}.
Definition set_transport (t : option RoundTripper) (c : Client) : Client :=
  {| url := url c; transport := t; sid := sid c |}.
Definition set_sid (s : string) (c : Client) : Client :=
  {| url := url c; transport := transport c; sid := s |}.

Definition ClientURL (u : option url.URL) : ClientOption :=
  λ c, ret (set_url u c, None).

Definition ClientRawURL (u : string) : ClientOption :=
  λ c, let '(parsed, err) := url_Parse u in ret (set_url parsed c, err).

Definition ClientTransport (t : option RoundTripper) : ClientOption :=
  λ c, ret (set_transport t c, None).

Definition ClientSID (sid : string) : ClientOption :=
  λ c, ret (set_sid sid c, None).

(** [ClientLogin]: [res] starts as the zero [AuthLoginResponse]. *)
Definition ClientLogin `{Unmarshaler AuthLoginResponse} (l : AuthLogin)
  : ClientOption :=
  λ c,
    let res := {| AuthLoginResponse_SID := ""; Cookie := "" |} in
    let l := set_Format "sid" l in
    let* (res', err) := Call c l (Some res) in
    match err with
    | Some e => ret (c, Some e)
    | None => ret (set_sid (AuthLoginResponse_SID (default res res')) c, None)
    end.

(** [NewClient]'s loop over the options, left at the first error. *)
Fixpoint NewClient_options (options : list ClientOption) (c : Client)
  : M (Client * option error) :=
  match options with
  | [] => ret (c, None)
  | o :: options =>
      let* (c, err) := o c in
      match err with
      | Some e => ret (c, Some e)
      | None => NewClient_options options c
      end
  end.

(** [NewClient]: the pair returned is [(nil, err)] or [(&c, nil)]. *)
Definition NewClient (options : list ClientOption)
  : M (option Client * option error) :=
  let c := {| url := None; transport := Some http_DefaultTransport;
              sid := "" |} in
  let* (c, err) := NewClient_options options c in
  match err with
  | Some e => ret (None, Some e)
  | None =>
      match url c with
      | None => ret (None, Some errURLMisconfigured)
      | Some u =>
          if negb (url.IsAbs u) then ret (None, Some errURLMisconfigured)
          else ret (Some c, None)
      end
  end.

End client.

(** ** A small concrete platform

    Enough of a platform to run the client on examples: a body is [T]
    followed by the payload for a successful envelope, [F] for a failed one
    with code 100, anything else is not JSON; a payload decodes into a string
    or into the [SID] of an [AuthLoginResponse] unless it is empty. *)

Definition example_Decode (body : string) : synologyResponse + error :=
  match body with
  | String "T" data => inl {| Success := true; Error_Code := 0%Z; Data := data |}
  | "F" => inl {| Success := false; Error_Code := 100%Z; Data := "" |}
  | _ => inr (ForeignError "invalid character")
  end.

Definition example_base : url.URL :=
  url.set_Path "/" (url.set_Host "foo.com" (url.set_Scheme "http" url.URL_zero)).

Definition example_Parse (s : string) : option url.URL * option error :=
  if bool_decide (s = "http://foo.com/") then (Some example_base, None)
  else (None, Some (ForeignError "parse")).

Definition example_platform : Platform :=
  {| json_Decode := example_Decode;
     url_Parse := example_Parse;
     http_DefaultTransport := λ _ _, inr (ForeignError "no network") |}.

Definition example_Unmarshal_string : Unmarshaler string := λ data d,
  if bool_decide (data = "")
  then (d, Some (ForeignError "unexpected end of JSON input"))
  else (data, None).

Definition example_Unmarshal_AuthLoginResponse
  : Unmarshaler AuthLoginResponse := λ data d,
  if bool_decide (data = "")
  then (d, Some (ForeignError "unexpected end of JSON input"))
  else ({| AuthLoginResponse_SID := data; Cookie := Cookie d |}, None).

(** A transport that answers every request with the same body, and one that
    fails every request with the same error. *)
Definition transport_body (body : string) : RoundTripper := λ _ _, inl body.
Definition transport_error (e : error) : RoundTripper := λ _ _, inr e.

(** ** Vocabulary of the specification of [NewClient] *)

Section vocabulary.
Context `{Platform}.

(** The client [NewClient] starts from. *)
Definition initial_client : Client :=
  {| url := None; transport := Some http_DefaultTransport; sid := "" |}.

(** [options_applied os c w c' w']: the options [os], applied in order to
    the client [c] in the world [w], all return without error and leave the
    client [c'] in the world [w']. *)
Inductive options_applied
  : list ClientOption → Client → World → Client → World → Prop :=
  | applied_nil c w : options_applied [] c w c w
  | applied_cons o os c w c1 w1 c2 w2 :
      o c w = (w1, Returns (c1, None)) →
      options_applied os c1 w1 c2 w2 →
      options_applied (o :: os) c w c2 w2.

(** [option_fails os c w e w']: some option of [os] returns the error [e],
    leaving the world [w'], after the options before it were applied. *)
Definition option_fails (os : list ClientOption) (c : Client) (w : World)
    (e : error) (w' : World) : Prop :=
  ∃ pre o post c1 w1 c2,
    os = pre ++ o :: post
    ∧ options_applied pre c w c1 w1
    ∧ o c1 w1 = (w', Returns (c2, Some e)).

(** The base URL is nil or not absolute. *)
Definition base_url_unusable (c : Client) : Prop :=
  url c = None ∨ ∃ u, url c = Some u ∧ url.IsAbs u = false.

(** An option that is not a transport option: whenever it returns, the
    client has the transport it had. *)
Definition keeps_transport (o : ClientOption) : Prop :=
  ∀ c w w' c' e, o c w = (w', Returns (c', e)) → transport c' = transport c.

(** The options of the package that make no call: [ClientURL],
    [ClientRawURL], [ClientTransport] and [ClientSID]. *)
Inductive plain_option `{Platform} : ClientOption → Prop :=
  | plain_ClientURL u : plain_option (ClientURL u)
  | plain_ClientRawURL s : plain_option (ClientRawURL s)
  | plain_ClientTransport t : plain_option (ClientTransport t)
  | plain_ClientSID s : plain_option (ClientSID s).

End vocabulary.

(** ** Vocabulary of the specification of the request URL *)

(** A path that begins with a slash. *)
Definition rooted (p : string) : Prop := ∃ rest, p = String "/" rest.

(** A path none of whose segments is [.] or [..]. *)
Definition dot_free (p : string) : Prop :=
  Forall (λ e, e ≠ "." ∧ e ≠ "..") (strings_Split p "/").

(** The values the query is to have under key [k]: the one [Do] gives the
    key itself, if any, then those of the request's parameter [k], in the
    request's order. *)
Definition sent_values (c : Client) (r : Request) (k : string) : list string :=
  (if decide (k = "api") then [API r]
   else if decide (k = "version") then [Version r]
   else if decide (k = "method") then [Method r]
   else if decide (k = "_sid") then
     if decide (SID r = "") then
       if decide (sid c = "") then [] else [sid c]
     else [SID r]
   else [])
  ++ url.values_of (Params r) k.

(** ** Inputs of the examples *)

(** A request whose own parameters bring a [_sid] value. *)
Definition request_with_sid_param : Request :=
  {| Path := ""; API := "api"; Version := "1"; Method := "m";
     Params := {["_sid" := ["x"]]}; SID := "" |}.

(** A base URL with a path of its own, and a request without path. *)
Definition base_with_path : url.URL := url.set_Path "/base/" example_base.

Definition request_without_path : Request :=
  {| Path := ""; API := "api"; Version := "1"; Method := "m";
     Params := ∅; SID := "" |}.

Definition example_client (u : url.URL) (t : RoundTripper) : Client :=
  {| url := Some u; transport := Some t; sid := "" |}.

Definition example_request : Request :=
  {| Path := "/webapi/entry.cgi"; API := "api"; Version := "version";
     Method := "method"; Params := {["foo" := ["foo"]]}; SID := "" |}.

Definition example_login : AuthLogin :=
  {| Account := "account"; Password := "password"; Session := "";
     Format := "cookie"; OTPCode := "" |}.

(** A request object whose marshaling fails. *)
Definition failing_marshal : MarshalRequest unit :=
  λ _, (None, Some (ForeignError "marshal")).

(** A request with a parameter value that holds the separators of a
    query. *)
Definition request_with_separators : Request :=
  {| Path := "/p"; API := "api"; Version := "1"; Method := "m";
     Params := {["foo" := ["a&b=c"]]}; SID := "" |}.

(** * Verification *)

(** ** Parameter sets *)

Section values.
Implicit Types (v p : url.Values) (k key : string) (l : list string).

Lemma lookup_Add v key e k :
  url.Add key e v !! k
  = if decide (key = k) then Some (url.values_of v key ++ [e]) else v !! k.
Proof.
  unfold url.Add. case_decide as Hk.
  - subst. apply lookup_insert_eq.
  - by apply lookup_insert_ne.
Qed.

Lemma values_of_Add v key e k :
  url.values_of (url.Add key e v) k
  = if decide (key = k) then url.values_of v key ++ [e]
    else url.values_of v k.
Proof. unfold url.values_of at 1. rewrite lookup_Add. by case_decide. Qed.

Lemma values_of_insert v key l k :
  url.values_of (<[key := l]> v) k
  = if decide (key = k) then l else url.values_of v k.
Proof.
  unfold url.values_of. case_decide as Hk.
  - subst. by rewrite lookup_insert_eq.
  - by rewrite lookup_insert_ne.
Qed.

(** Adding the values of one key extends what the key already holds; an
    empty list of values does not even create the key. *)
Lemma lookup_add_all key l v k :
  add_all key l v !! k
  = if decide (key = k ∧ l ≠ []) then Some (url.values_of v key ++ l)
    else v !! k.
Proof.
  unfold add_all. revert v. induction l as [|e l IH]; intros v; simpl.
  - by rewrite decide_False by (by intros [??]).
  - rewrite IH, values_of_Add, lookup_Add.
    rewrite (decide_True (P := key = key)) by done.
    rewrite <-(assoc_L (++)); simpl.
    destruct (decide (key = k)) as [->|Hne].
    + rewrite (decide_True (P := _ ∧ e :: l ≠ [])) by done.
      destruct l; [by rewrite decide_False by (by intros [??])|].
      by rewrite decide_True.
    + by rewrite !decide_False by (by intros [??]).
Qed.

(** The merge of [Do]: every key ends up with the values it had followed by
    those the request's parameters give it. The order in which the range
    loop visits the keys does not show. *)
Lemma lookup_merge v p k :
  map_fold add_all v p !! k
  = if decide (url.values_of p k = []) then v !! k
    else Some (url.values_of v k ++ url.values_of p k).
Proof.
  refine (map_fold_weak_ind (λ r m, ∀ k,
    r !! k = if decide (url.values_of m k = []) then v !! k
             else Some (url.values_of v k ++ url.values_of m k))
    add_all v _ _ p k); clear p k.
  - intros k. by rewrite decide_True.
  - intros i x m r Hi IH k. rewrite lookup_add_all, values_of_insert.
    destruct (decide (i = k)) as [->|Hne].
    + assert (Hr : r !! k = v !! k).
      { assert (url.values_of m k = []) as Hm
          by (unfold url.values_of; by rewrite Hi).
        by rewrite IH, decide_True. }
      destruct (decide (x = [])) as [->|Hx].
      * by rewrite decide_False by (by intros [??]).
      * rewrite decide_True by done. unfold url.values_of. by rewrite Hr.
    + rewrite decide_False by (by intros [??]). apply IH.
Qed.

Lemma values_of_merge v p k :
  url.values_of (map_fold add_all v p) k
  = url.values_of v k ++ url.values_of p k.
Proof.
  unfold url.values_of at 1. rewrite lookup_merge. case_decide as Hp; [|done].
  rewrite Hp. by rewrite (right_id_L [] (++)).
Qed.

(** The test [len(v) == 1 && v[0] == ""] of [dropEmpty]. *)
Lemma single_empty_spec l :
  bool_decide (length l = 1) && bool_decide (l !! 0 = Some "") = true
  ↔ l = [""].
Proof.
  rewrite andb_true_iff, !bool_decide_eq_true. split.
  - intros [Hlen H0]. destruct l as [|e [|??]]; simplify_eq/=; done.
  - by intros ->.
Qed.

Lemma lookup_dropEmpty_fold p0 m k :
  map_fold
    (λ k l p, if bool_decide (length l = 1) && bool_decide (l !! 0 = Some "")
              then url.Del k p else p) p0 m !! k
  = if decide (m !! k = Some [""]) then None else p0 !! k.
Proof.
  refine (map_fold_weak_ind (λ r m, ∀ k,
    r !! k = if decide (m !! k = Some [""]) then None else p0 !! k)
    _ p0 _ _ m k); clear m k.
  - intros k. by rewrite lookup_empty, decide_False.
  - intros i x m r Hi IH k.
    destruct (bool_decide (length x = 1) && bool_decide (x !! 0 = Some ""))
      eqn:Hx.
    + apply single_empty_spec in Hx as ->. unfold url.Del.
      destruct (decide (i = k)) as [->|Hne].
      * by rewrite lookup_delete_eq, lookup_insert_eq, decide_True.
      * rewrite lookup_delete_ne, lookup_insert_ne by done. apply IH.
    + assert (x ≠ [""]) as Hne'.
      { intros ->. by rewrite (proj2 (single_empty_spec [""])) in Hx. }
      destruct (decide (i = k)) as [->|Hne].
      * rewrite lookup_insert_eq, IH, Hi.
        rewrite !decide_False by congruence. done.
      * rewrite lookup_insert_ne by done. apply IH.
Qed.

Lemma lookup_dropEmpty p k :
  dropEmpty p !! k = if decide (p !! k = Some [""]) then None else p !! k.
Proof. apply lookup_dropEmpty_fold. Qed.

End values.

(** ** The parameter set of [Do] *)

(** The values of every key of the parameter set: those [Do] adds itself,
    then those the request's parameters give the key. *)
Lemma outgoing_values c r k :
  url.values_of (outgoing c r) k
  = (if decide (k = "api") then [API r]
     else if decide (k = "version") then [Version r]
     else if decide (k = "method") then [Method r]
     else if decide (k = "_sid") then
       if decide (SID r = "") then
         if decide (sid c = "") then [] else [sid c]
       else [SID r]
     else [])
    ++ url.values_of (Params r) k.
Proof.
  unfold outgoing. rewrite values_of_merge. f_equal.
  destruct (decide (SID r = "")) as [HS|HS];
    [destruct (decide (sid c = "")) as [Hs|Hs]|];
    rewrite ?(bool_decide_eq_true_2 _ HS), ?(bool_decide_eq_false_2 _ HS),
      ?(bool_decide_eq_true_2 _ Hs), ?(bool_decide_eq_false_2 _ Hs); simpl;
    rewrite !values_of_Add;
    repeat (case_decide; simplify_eq/=; try done).
Qed.

(** A key is sent exactly when it has a value to send. *)
Lemma outgoing_lookup c r k :
  outgoing c r !! k
  = if decide (url.values_of (outgoing c r) k = []) then None
    else Some (url.values_of (outgoing c r) k).
Proof.
  assert (Hnil : ∀ v : url.Values, (∀ k, v !! k ≠ Some []) →
    ∀ k, v !! k = if decide (url.values_of v k = []) then None
                  else Some (url.values_of v k)).
  { intros v Hv k'. specialize (Hv k'). unfold url.values_of.
    by destruct (v !! k') as [[|??]|]. }
  apply Hnil. clear k. intros k. unfold outgoing. rewrite lookup_merge.
  case_decide as Hp.
  - destruct (negb (bool_decide (SID r = ""))); [|destruct (negb _)];
      rewrite !lookup_Add; repeat case_decide; try done;
      by destruct (url.values_of _ _).
  - intros [=Heq]. by apply app_eq_nil in Heq as [_ ?].
Qed.

(** ** Strings *)

Lemma strings_Split_cons s sep : ∃ w ws, strings_Split s sep = w :: ws.
Proof.
  destruct s as [|c s]; simpl; [by eauto|].
  case_decide; [by eauto|]. destruct (strings_Split s sep); by eauto.
Qed.

Lemma strings_Join_cons e w ws sep :
  strings_Join (e :: w :: ws) sep = e +:+ sep +:+ strings_Join (w :: ws) sep.
Proof. done. Qed.

(** Splitting at a byte and joining with it again gives the string back. *)
Lemma strings_Join_Split s sep :
  strings_Join (strings_Split s sep) (String sep "") = s.
Proof.
  induction s as [|c s IH]; [done|].
  destruct (strings_Split_cons s sep) as (w & ws & Hs).
  cbn [strings_Split]. rewrite Hs in IH |- *. case_decide as Hc.
  - subst c. rewrite strings_Join_cons, IH. done.
  - destruct ws as [|w' ws].
    + simpl in *. by rewrite IH.
    + rewrite strings_Join_cons in IH |- *. by rewrite <-IH.
Qed.

(** ** Escaping *)

Lemma escape_cons c s mode :
  url.escape (String c s) mode
  = url.escape (String c "") mode +:+ url.escape s mode.
Proof. simpl. by repeat case_match. Qed.

Lemma unescape_escape_byte c rest :
  url.unescape (url.escape (String c "") url.encodePath +:+ rest)
    url.encodePath
  = String c <$> url.unescape rest url.encodePath.
Proof. destruct c as [[] [] [] [] [] [] [] []]; reflexivity. Qed.

(** Unescaping an escaped path gives the path back. *)
Lemma unescape_escape s :
  url.unescape (url.escape s url.encodePath) url.encodePath = Some s.
Proof.
  induction s as [|c s IH]; [done|].
  by rewrite escape_cons, unescape_escape_byte, IH.
Qed.

Lemma escape_path_inj s1 s2 :
  url.escape s1 url.encodePath = url.escape s2 url.encodePath → s1 = s2.
Proof.
  intros Heq. apply (inj Some).
  by rewrite <-(unescape_escape s1), <-(unescape_escape s2), Heq.
Qed.

(** A byte of a path is kept or replaced by [%] and two bytes; a slash is
    neither produced nor consumed. *)
Lemma escape_byte_cases c :
  c ≠ "/"%char →
  url.escape (String c "") url.encodePath = String c ""
  ∨ ∃ a b, url.escape (String c "") url.encodePath
           = String "%" (String a (String b ""))
           ∧ a ≠ "/"%char ∧ b ≠ "/"%char.
Proof.
  destruct c as [[] [] [] [] [] [] [] []]; intros Hc;
    first [ by left | right; eexists _, _; by repeat split | done ].
Qed.

Lemma strings_Split_ne c s sep w ws :
  c ≠ sep → strings_Split s sep = w :: ws →
  strings_Split (String c s) sep = String c w :: ws.
Proof. intros Hc Hs. simpl. by rewrite decide_False, Hs. Qed.

Lemma strings_Split_escape s :
  strings_Split (url.escape s url.encodePath) "/"
  = (λ e, url.escape e url.encodePath) <$> strings_Split s "/".
Proof.
  induction s as [|c s IH]; [done|].
  destruct (strings_Split_cons s "/") as (w & ws & Hs).
  rewrite Hs, fmap_cons in IH.
  destruct (decide (c = "/"%char)) as [->|Hc].
  - change (url.escape (String "/" s) url.encodePath)
      with (String "/" (url.escape s url.encodePath)).
    cbn [strings_Split]. rewrite !decide_True, IH, Hs by done.
    done.
  - rewrite (strings_Split_ne _ _ _ _ _ Hc Hs), fmap_cons.
    rewrite escape_cons, (escape_cons c w).
    destruct (escape_byte_cases c Hc) as [->|(a & b & -> & Ha & Hb)].
    + apply (strings_Split_ne _ _ _ _ _ Hc IH).
    + by do 3 (apply strings_Split_ne; [done|]).
Qed.

(** ** Path resolution *)

Lemma foldl_resolve_step dst src :
  Forall (λ e, e ≠ "." ∧ e ≠ "..") src →
  foldl url.resolve_step dst src = dst ++ src.
Proof.
  intros Hsrc. revert dst.
  induction Hsrc as [|e src [He1 He2] _ IH]; intros dst; simpl.
  - by rewrite (right_id_L [] (++)).
  - unfold url.resolve_step at 2.
    rewrite !bool_decide_eq_false_2 by done.
    by rewrite IH, <-(assoc_L (++)).
Qed.

(** A rooted path without dot segments resolves to itself, whatever the
    base. *)
Lemma resolvePath_rooted base ref :
  rooted ref → dot_free ref → url.resolvePath base ref = ref.
Proof.
  intros [rest ->] Hdots. unfold url.resolvePath. cbv beta iota zeta.
  rewrite (bool_decide_eq_true_2 ("/"%char = "/"%char)) by done.
  rewrite (bool_decide_eq_false_2 (String "/" rest = "")) by done.
  rewrite (foldl_resolve_step [] _ Hdots). simpl app.
  assert (Hlast : ∀ x, last (strings_Split (String "/" rest) "/") = Some x →
                       x ≠ "." ∧ x ≠ "..").
  { intros x (l' & Hl)%last_Some. unfold dot_free in Hdots.
    rewrite Hl in Hdots. by apply Forall_app in Hdots as [_ [? _]%Forall_cons]. }
  rewrite !bool_decide_eq_false_2
    by (intros Hx; by destruct (Hlast _ Hx)).
  simpl orb. cbv iota.
  change ("" :: strings_Split rest "/")
    with (strings_Split (String "/" rest) "/").
  by rewrite (strings_Join_Split (String "/" rest) "/").
Qed.

Lemma dot_free_escape p : dot_free p → dot_free (url.escape p url.encodePath).
Proof.
  unfold dot_free. rewrite strings_Split_escape, Forall_fmap.
  intros Hp. eapply Forall_impl; [exact Hp|].
  intros e [He1 He2]. simpl. split; intros Heq.
  - apply He1, escape_path_inj. by rewrite Heq.
  - apply He2, escape_path_inj. by rewrite Heq.
Qed.

Lemma rooted_escape p : rooted p → rooted (url.escape p url.encodePath).
Proof. intros [rest ->]. by eexists. Qed.

(** ** Encoding of parameter sets *)

Lemma elem_of_encode_keys (v : url.Values) k :
  k ∈ merge_sort String.le (map_to_list v).*1 ↔ is_Some (v !! k).
Proof.
  rewrite merge_sort_Permutation, list_elem_of_fmap. split.
  - intros ([k' l] & -> & Hkl%elem_of_map_to_list). by eauto.
  - intros [l Hl]. exists (k, l). by rewrite elem_of_map_to_list.
Qed.

(** Every value of every key has its component in the encoded query. *)
Lemma elem_of_encode_components (v : url.Values) k l e :
  v !! k = Some l → e ∈ l →
  url.QueryEscape k +:+ "=" +:+ url.QueryEscape e ∈ url.encode_components v.
Proof.
  intros Hk He. unfold url.encode_components. apply list_elem_of_bind.
  exists k. split; [|apply elem_of_encode_keys; by eauto].
  unfold url.encode_key, url.values_of. rewrite Hk. simpl.
  by apply (list_elem_of_fmap_2 (λ e, _ +:+ "=" +:+ url.QueryEscape e)).
Qed.

Lemma string_app_nil (s1 s2 : string) : s1 +:+ s2 = "" → s1 = "" ∧ s2 = "".
Proof. by destruct s1. Qed.

(** A parameter set that has a value to send does not encode to the empty
    query. *)
Lemma Encode_nonempty (v : url.Values) k l e :
  v !! k = Some l → e ∈ l → url.Encode v ≠ "".
Proof.
  intros Hk He Henc. unfold url.Encode in Henc.
  assert (Hall : ∀ x, x ∈ url.encode_components v → x ≠ "").
  { unfold url.encode_components. intros x (k' & Hx & _)%list_elem_of_bind.
    unfold url.encode_key in Hx.
    apply list_elem_of_fmap in Hx as (e' & -> & _).
    intros [_ [=]]%string_app_nil. }
  pose proof (elem_of_encode_components v k l e Hk He) as Hin.
  destruct (url.encode_components v) as [|x [|y xs]]; simpl in Henc.
  - by apply not_elem_of_nil in Hin.
  - apply (Hall x); [left|done].
  - apply string_app_nil in Henc as [-> _]. apply (Hall ""); [left|done].
Qed.

Lemma outgoing_api c r : outgoing c r !! "api" = Some (API r :: url.values_of (Params r) "api").
Proof. by rewrite outgoing_lookup, outgoing_values. Qed.

Lemma Encode_outgoing_nonempty c r : url.Encode (outgoing c r) ≠ "".
Proof. eapply Encode_nonempty; [apply outgoing_api|left]. Qed.

(** ** The query as a string *)

Lemma byte_in_app c (s1 s2 : string) :
  url.byte_in c (s1 +:+ s2) = url.byte_in c s1 || url.byte_in c s2.
Proof.
  induction s1 as [|a s1 IH]; [done|]. simpl. by case_decide.
Qed.

(** A string without the separator is one piece; a separator after such a
    string ends the first piece. *)
Lemma strings_Split_piece s sep :
  url.byte_in sep s = false → strings_Split s sep = [s].
Proof.
  induction s as [|c s IH]; [done|]. simpl.
  destruct (decide (sep = c)) as [->|Hne]; [done|]. intros Hs.
  by rewrite decide_False, IH by done.
Qed.

Lemma strings_Split_app s1 s2 sep :
  url.byte_in sep s1 = false →
  strings_Split (s1 +:+ String sep s2) sep = s1 :: strings_Split s2 sep.
Proof.
  induction s1 as [|c s1 IH]; simpl.
  - intros _. by rewrite decide_True.
  - destruct (decide (sep = c)) as [->|Hne]; [done|]. intros Hs.
    by rewrite decide_False, IH by done.
Qed.

(** Joining pieces that do not hold the separator and splitting again gives
    the pieces back. *)
Lemma strings_Split_Join comps sep :
  comps ≠ [] → Forall (λ x, url.byte_in sep x = false) comps →
  strings_Split (strings_Join comps (String sep "")) sep = comps.
Proof.
  intros Hne Hall. induction Hall as [|x comps Hx Hall IH]; [done|].
  destruct comps as [|y comps].
  - by apply strings_Split_piece.
  - rewrite strings_Join_cons.
    change (x +:+ String sep "" +:+ ?z) with (x +:+ String sep z).
    rewrite strings_Split_app by done. by rewrite IH.
Qed.

Lemma QueryEscape_byte_separators c :
  url.byte_in "&" (url.QueryEscape (String c "")) = false
  ∧ url.byte_in "=" (url.QueryEscape (String c "")) = false.
Proof. destruct c as [[] [] [] [] [] [] [] []]; by split. Qed.

(** An escaped key or value holds neither [&] nor [=]. *)
Lemma QueryEscape_separators s :
  url.byte_in "&" (url.QueryEscape s) = false
  ∧ url.byte_in "=" (url.QueryEscape s) = false.
Proof.
  unfold url.QueryEscape. induction s as [|c s [IH1 IH2]]; [done|].
  destruct (QueryEscape_byte_separators c) as [H1 H2].
  unfold url.QueryEscape in H1, H2.
  by rewrite escape_cons, !byte_in_app, IH1, IH2, H1, H2.
Qed.

Lemma QueryUnescape_escape_byte c rest :
  url.unescape (url.QueryEscape (String c "") +:+ rest)
    url.encodeQueryComponent
  = String c <$> url.unescape rest url.encodeQueryComponent.
Proof. destruct c as [[] [] [] [] [] [] [] []]; reflexivity. Qed.

(** Unescaping an escaped key or value gives it back. *)
Lemma QueryUnescape_escape s :
  url.unescape (url.QueryEscape s) url.encodeQueryComponent = Some s.
Proof.
  unfold url.QueryEscape. induction s as [|c s IH]; [done|].
  rewrite escape_cons.
  change (url.escape (String c "") url.encodeQueryComponent)
    with (url.QueryEscape (String c "")).
  by rewrite QueryUnescape_escape_byte, IH.
Qed.

Lemma QueryEscape_inj s1 s2 :
  url.QueryEscape s1 = url.QueryEscape s2 → s1 = s2.
Proof.
  intros Heq. apply (inj Some).
  by rewrite <-(QueryUnescape_escape s1), <-(QueryUnescape_escape s2), Heq.
Qed.

(** A component splits at its [=] into the escaped key and the escaped
    value. *)
Lemma strings_Split_component k e :
  strings_Split (url.QueryEscape k +:+ "=" +:+ url.QueryEscape e) "="
  = [url.QueryEscape k; url.QueryEscape e].
Proof.
  change (url.QueryEscape k +:+ "=" +:+ url.QueryEscape e)
    with (url.QueryEscape k +:+ String "=" (url.QueryEscape e)).
  rewrite strings_Split_app by apply QueryEscape_separators.
  by rewrite strings_Split_piece by apply QueryEscape_separators.
Qed.

Lemma component_inj k1 e1 k2 e2 :
  url.QueryEscape k1 +:+ "=" +:+ url.QueryEscape e1
  = url.QueryEscape k2 +:+ "=" +:+ url.QueryEscape e2 →
  k1 = k2 ∧ e1 = e2.
Proof.
  intros Heq. apply (f_equal (λ x, strings_Split x "=")) in Heq.
  rewrite !strings_Split_component in Heq.
  injection Heq as Hk He. split; by apply QueryEscape_inj.
Qed.

Lemma elem_of_encode_components_inv (v : url.Values) x :
  x ∈ url.encode_components v ↔
  ∃ k e, x = url.QueryEscape k +:+ "=" +:+ url.QueryEscape e
         ∧ e ∈ url.values_of v k.
Proof.
  split.
  - unfold url.encode_components. intros (k & Hx & _)%list_elem_of_bind.
    unfold url.encode_key in Hx.
    apply list_elem_of_fmap in Hx as (e & -> & He). by eauto.
  - intros (k & e & -> & He). unfold url.values_of in He.
    destruct (v !! k) as [l|] eqn:Hk; [|by apply elem_of_nil in He].
    by eapply elem_of_encode_components.
Qed.

(** The components of one key are the values of the key. *)
Lemma elem_of_encode_components_key (v : url.Values) k e :
  url.QueryEscape k +:+ "=" +:+ url.QueryEscape e ∈ url.encode_components v
  ↔ e ∈ url.values_of v k.
Proof.
  rewrite elem_of_encode_components_inv. split.
  - by intros (k' & e' & [-> ->]%component_inj & He).
  - by eauto.
Qed.

(** Splitting the encoded query at [&] gives its components. *)
Lemma strings_Split_Encode (v : url.Values) :
  url.encode_components v ≠ [] →
  strings_Split (url.Encode v) "&" = url.encode_components v.
Proof.
  intros Hne. apply strings_Split_Join; [done|].
  apply Forall_forall. intros x (k & e & -> & _)%elem_of_encode_components_inv.
  destruct (QueryEscape_separators k) as [Hk _].
  destruct (QueryEscape_separators e) as [He _].
  by rewrite !byte_in_app, Hk, He.
Qed.

Lemma encode_components_outgoing_nonempty c r :
  url.encode_components (outgoing c r) ≠ [].
Proof.
  intros Hnil.
  pose proof (elem_of_encode_components (outgoing c r) "api" _ (API r)
                (outgoing_api c r)) as Hin.
  rewrite Hnil in Hin. eapply not_elem_of_nil, Hin. by left.
Qed.

(** ** The URL of the request *)

Lemma setPath_other p u :
  url.Scheme (url.setPath p u) = url.Scheme u
  ∧ url.Opaque (url.setPath p u) = url.Opaque u
  ∧ url.User (url.setPath p u) = url.User u
  ∧ url.Host (url.setPath p u) = url.Host u
  ∧ url.RawQuery (url.setPath p u) = url.RawQuery u
  ∧ url.Fragment (url.setPath p u) = url.Fragment u.
Proof. unfold url.setPath. by destruct (url.unescape p _). Qed.

(** Setting the default encoding of a path sets the path. *)
Lemma setPath_escape p u :
  url.setPath (url.escape p url.encodePath) u
  = url.set_RawPath "" (url.set_Path p u).
Proof.
  unfold url.setPath. rewrite unescape_escape.
  by rewrite bool_decide_eq_true_2.
Qed.

(** A reference made of a path and a non-empty query keeps its query and has
    no fragment; the scheme is the base's. *)
Lemma ResolveReference_query u p q :
  q ≠ "" →
  let final := url.ResolveReference u
                 (url.set_RawQuery q (url.set_Path p url.URL_zero)) in
  url.RawQuery final = q ∧ url.Scheme final = url.Scheme u
  ∧ url.Fragment final = "".
Proof.
  intros Hq. unfold url.ResolveReference. simpl.
  rewrite (bool_decide_eq_false_2 (q = "")) by done.
  rewrite andb_false_r.
  destruct (bool_decide (p = "") && negb (bool_decide (url.Opaque u = "")));
    [done|].
  by destruct (setPath_other
    (url.resolvePath (url.EscapedPath u)
       (url.EscapedPath (url.set_RawQuery q (url.set_Path p url.URL_zero))))
    (url.set_User (url.User u) (url.set_Host (url.Host u)
       (url.set_Scheme (url.Scheme u)
          (url.set_RawQuery q (url.set_Path p url.URL_zero))))))
    as (-> & _ & _ & _ & -> & ->).
Qed.

(** A rooted reference path without dot segments replaces the path of the
    base; the base gives the scheme, the user information and the host. *)
Lemma ResolveReference_rooted u p q :
  rooted p → dot_free p →
  url.ResolveReference u (url.set_RawQuery q (url.set_Path p url.URL_zero))
  = {| url.Scheme := url.Scheme u; url.Opaque := ""; url.User := url.User u;
       url.Host := url.Host u; url.Path := p; url.RawPath := "";
       url.ForceQuery := false; url.RawQuery := q; url.Fragment := "";
       url.RawFragment := "" |}.
Proof.
  intros Hroot Hdots. unfold url.ResolveReference. simpl.
  assert (Hp : bool_decide (p = "") = false).
  { apply bool_decide_eq_false_2. by destruct Hroot as [? ->]. }
  rewrite Hp. simpl.
  assert (Hesc : url.EscapedPath (url.set_RawQuery q (url.set_Path p url.URL_zero))
                 = url.escape p url.encodePath).
  { unfold url.EscapedPath. simpl.
    rewrite bool_decide_eq_false_2; [done|]. by destruct Hroot as [? ->]. }
  rewrite Hesc.
  rewrite resolvePath_rooted by auto using rooted_escape, dot_free_escape.
  by rewrite setPath_escape.
Qed.

(** ** Empty-value elision *)

(** C6: [dropEmpty] removes a key exactly when its value list is a single
    empty string; every other key keeps the value list it had. *)
Theorem dropEmpty_spec (p : url.Values) (k : string) :
  (p !! k = Some [""] → dropEmpty p !! k = None)
  ∧ (p !! k ≠ Some [""] → dropEmpty p !! k = p !! k).
Proof.
  rewrite lookup_dropEmpty. split; intros Hk.
  - by rewrite decide_True.
  - by rewrite decide_False.
Qed.

Lemma dropEmpty_spec_witness :
  dropEmpty (<["keep" := ["foo"]]> {["drop" := [""]]}) !! "drop" = None
  ∧ dropEmpty (<["keep" := ["foo"]]> {["drop" := [""]]}) !! "keep"
    = Some ["foo"].
Proof.
  split.
  - apply (dropEmpty_spec (<["keep" := ["foo"]]> {["drop" := [""]]}) "drop").
    reflexivity.
  - etrans.
    + apply (dropEmpty_spec (<["keep" := ["foo"]]> {["drop" := [""]]}) "keep").
      vm_compute. discriminate.
    + reflexivity.
Defined.

(** ** Rendering of API errors *)

Lemma errStrings_lookup (e : Error) :
  errStrings !! e
  = if decide (e = 100%Z) then Some "unknown API error"
    else if decide (e = 101%Z) then Some "invalid parameter"
    else if decide (e = 102%Z) then Some "invalid API"
    else if decide (e = 103%Z) then Some "invalid method"
    else if decide (e = 104%Z) then Some "unsupported version"
    else if decide (e = 105%Z) then Some "permission denined"
    else if decide (e = 106%Z) then Some "session timeout error"
    else if decide (e = 107%Z)
         then Some "session interrupted with duplicated login"
    else None.
Proof.
  unfold errStrings.
  repeat (case_decide; [subst e; reflexivity|
    rewrite lookup_insert_ne by (intros Heq; symmetry in Heq; done)]).
  apply lookup_empty.
Qed.

(** C8: a code of the table, which holds exactly the codes 100 to 107, is
    rendered as the namespace, the description and the code in parentheses;
    any other code is rendered in the generic form. Code 100 is described as
    "unknown API error" and code 42 is not in the table. *)
Theorem Error_rendering (e : Error) :
  ((100 ≤ e ≤ 107)%Z →
     ∃ s, errStrings !! e = Some s
          ∧ Error_Error e = "syno: " +:+ s +:+ " (" +:+ strconv_Itoa e +:+ ")")
  ∧ (¬ (100 ≤ e ≤ 107)%Z →
       errStrings !! e = None
       ∧ Error_Error e = "syno: error code " +:+ strconv_Itoa e)
  ∧ Error_Error ErrorUnknown = "syno: unknown API error (100)"
  ∧ Error_Error 42%Z = "syno: error code 42".
Proof.
  unfold Error_Error. rewrite errStrings_lookup. split; [|split; [|done]].
  - intros He. repeat (case_decide; [eauto|]). lia.
  - intros He. repeat (case_decide; [lia|]). done.
Qed.

Lemma Error_rendering_witness :
  (∃ s, errStrings !! 105%Z = Some s
        ∧ Error_Error 105%Z
          = "syno: " +:+ s +:+ " (" +:+ strconv_Itoa 105 +:+ ")")
  ∧ errStrings !! (-3)%Z = None
  ∧ Error_Error (-3)%Z = "syno: error code " +:+ strconv_Itoa (-3).
Proof.
  split.
  - apply (Error_rendering 105%Z). lia.
  - apply (Error_rendering (-3)%Z). lia.
Defined.

(** ** Marshaling of the typed request objects *)

(** C9: a list-tasks request with zero offset, zero limit and no additional
    fields marshals to an empty parameter set; with offset 1, limit 2 and
    additional fields a and b it marshals to exactly offset=1, limit=2 and
    additional=a,b. In general marshaling succeeds, an integer field is sent
    (in decimal) exactly when it is not zero, the list field is sent, joined
    by commas into one value, exactly when it is not empty, and nothing else
    is sent. *)
Theorem DownloadTaskList_marshal :
  marshalRequest {| Offset := 0; Limit := 0; Additional := [] |}
  = (Some {| Path := downloadTaskPath; API := downloadTaskAPI;
             Version := downloadTaskVersion; Method := "list";
             Params := ∅; SID := "" |}, None)
  ∧ marshalRequest {| Offset := 1; Limit := 2; Additional := ["a"; "b"] |}
    = (Some {| Path := downloadTaskPath; API := downloadTaskAPI;
               Version := downloadTaskVersion; Method := "list";
               Params := <["offset" := ["1"]]> (<["limit" := ["2"]]>
                           {["additional" := ["a,b"]]});
               SID := "" |}, None)
  ∧ ∀ d : DownloadTaskList, ∃ r,
      marshalRequest d = (Some r, None)
      ∧ Params r !! "offset"
        = (if decide (Offset d = 0%Z) then None
           else Some [strconv_Itoa (Offset d)])
      ∧ Params r !! "limit"
        = (if decide (Limit d = 0%Z) then None
           else Some [strconv_Itoa (Limit d)])
      ∧ Params r !! "additional"
        = (if decide (Additional d = []) then None
           else Some [strings_Join (Additional d) ","])
      ∧ ∀ k, k ∉ ["offset"; "limit"; "additional"] → Params r !! k = None.
Proof.
  split; [|split].
  - reflexivity.
  - reflexivity.
  - intros d. eexists. split; [reflexivity|]. simpl.
    assert (Hadd : bool_decide (0 < length (Additional d))
                   = negb (bool_decide (Additional d = []))).
    { by destruct (Additional d). }
    rewrite Hadd. clear Hadd.
    repeat split; [..|intros k Hk];
      destruct (decide (Offset d = 0%Z)) as [HO|HO];
      destruct (decide (Limit d = 0%Z)) as [HL|HL];
      destruct (decide (Additional d = [])) as [HA|HA];
      rewrite ?(bool_decide_eq_true_2 _ HO), ?(bool_decide_eq_false_2 _ HO),
        ?(bool_decide_eq_true_2 _ HL), ?(bool_decide_eq_false_2 _ HL),
        ?(bool_decide_eq_true_2 _ HA), ?(bool_decide_eq_false_2 _ HA); simpl;
      rewrite ?lookup_Add;
      repeat (case_decide; simplify_eq/=; try done);
      try done; exfalso; apply Hk; set_solver.
Qed.

(** ** Request execution *)

(** Unfolds one call of [Do] on a client whose URL and transport are known. *)
Ltac run_Do :=
  unfold Do, bind, RoundTrip, ret;
  repeat match goal with
         | H : url _ = _ |- _ => rewrite H
         | H : transport _ = _ |- _ => rewrite H
         | H : _ _ (http_request _ _ _) = _ |- _ => rewrite H
         | H : json_Decode _ = _ |- _ => rewrite H
         | H : Success _ = _ |- _ => rewrite H
         end;
  simpl.

Section execution.
Context `{Platform}.

(** A client without URL or without transport cannot make a request. *)
Lemma Do_nil `{Unmarshaler D} (c : Client) r (data : option D) w :
  url c = None ∨ transport c = None → Do c r data w = (w, Panics).
Proof.
  unfold Do, panic. intros [Hc|Hc]; rewrite Hc; [done|].
  by destruct (url c).
Qed.

(** On a configured client [Do] makes exactly one request and returns. *)
Lemma Do_returns `{Unmarshaler D} (c : Client) r (data : option D) w u t :
  url c = Some u → transport c = Some t →
  ∃ res, Do c r data w = (w ++ [http_request u c r], Returns res).
Proof.
  intros Hu Ht. run_Do.
  destruct (t w (http_request u c r)) as [body|e]; simpl; [|by eauto].
  destruct (json_Decode body) as [resp|e]; simpl; [|by eauto].
  destruct (Success resp); simpl; [|by eauto].
  destruct data as [d|]; [|by eauto].
  destruct (json_Unmarshal (Data resp) d). by eauto.
Qed.

(** A failure of the transport is returned as it is. *)
Lemma Do_transport_error `{Unmarshaler D} (c : Client) r (data : option D)
    w u t e :
  url c = Some u → transport c = Some t →
  t w (http_request u c r) = inr e →
  Do c r data w = (w ++ [http_request u c r], Returns (data, Some e)).
Proof. intros Hu Ht Hres. by run_Do. Qed.

(** A body that is not an envelope: the decoder's error is returned. *)
Lemma Do_decode_error `{Unmarshaler D} (c : Client) r (data : option D)
    w u t body e :
  url c = Some u → transport c = Some t →
  t w (http_request u c r) = inl body →
  json_Decode body = inr e →
  Do c r data w = (w ++ [http_request u c r], Returns (data, Some e)).
Proof. intros Hu Ht Hres Hdec. by run_Do. Qed.

(** C3: once the envelope is decoded, a failed envelope makes [Do] return
    the API error of the envelope's code and leave the destination as it
    was; a successful envelope with a destination is unmarshaled into it,
    and the error returned is the unmarshaler's, none if it has none; a
    successful envelope without destination returns no error. *)
Theorem Do_envelope `{Unmarshaler D} (c : Client) (r : Request)
    (data : option D) (w : World) u t body resp :
  url c = Some u → transport c = Some t →
  t w (http_request u c r) = inl body →
  json_Decode body = inl resp →
  (Success resp = false →
     Do c r data w
     = (w ++ [http_request u c r],
        Returns (data, Some (APIError (Error_Code resp)))))
  ∧ (Success resp = true → ∀ d, data = Some d →
       Do c r data w
       = (w ++ [http_request u c r],
          Returns (Some (json_Unmarshal (Data resp) d).1,
                   (json_Unmarshal (Data resp) d).2)))
  ∧ (Success resp = true → data = None →
       Do c r data w = (w ++ [http_request u c r], Returns (None, None))).
Proof.
  intros Hu Ht Hres Hdec. repeat split.
  - intros Hs. by run_Do.
  - intros Hs d ->. run_Do. by destruct (json_Unmarshal (Data resp) d).
  - intros Hs ->. by run_Do.
Qed.

Lemma Call_marshal_error `{MarshalRequest T} `{Unmarshaler D} (c : Client)
    (x : T) (data : option D) req e w :
  marshalRequest x = (req, Some e) →
  Call c x data w = (w, Returns (data, Some e)).
Proof. unfold Call. intros ->. by destruct req. Qed.

Lemma Call_marshaled `{MarshalRequest T} `{Unmarshaler D} (c : Client)
    (x : T) (data : option D) req :
  marshalRequest x = (Some req, None) → Call c x data = Do c req data.
Proof. unfold Call. by intros ->. Qed.

(** C7: [Call] marshals first. If marshaling fails, [Call] returns that
    error, leaves the destination alone and makes no request: the world is
    as it was. Otherwise [Call] is [Do] on the marshaled request. *)
Theorem Call_spec `{MarshalRequest T} `{Unmarshaler D} (c : Client) (x : T)
    (data : option D) :
  (∀ req e w, marshalRequest x = (req, Some e) →
     Call c x data w = (w, Returns (data, Some e)))
  ∧ (∀ req, marshalRequest x = (Some req, None) →
       Call c x data = Do c req data).
Proof.
  split.
  - intros req e w. apply Call_marshal_error.
  - intros req. apply Call_marshaled.
Qed.

End execution.

(** ** Client construction *)

Section construction.
Context `{Platform}.

Lemma NewClient_options_applied os c w c' w' :
  options_applied os c w c' w' →
  NewClient_options os c w = (w', Returns (c', None)).
Proof.
  induction 1 as [|o os c w c1 w1 c2 w2 Ho _ IH]; [done|].
  simpl. unfold bind. by rewrite Ho.
Qed.

Lemma NewClient_options_app pre post c w c1 w1 :
  options_applied pre c w c1 w1 →
  NewClient_options (pre ++ post) c w = NewClient_options post c1 w1.
Proof.
  induction 1 as [|o os c w c1 w1 c2 w2 Ho _ IH]; [done|].
  simpl. unfold bind. by rewrite Ho.
Qed.

Lemma NewClient_options_fails os c w e w' :
  option_fails os c w e w' →
  ∃ c', NewClient_options os c w = (w', Returns (c', Some e)).
Proof.
  intros (pre & o & post & c1 & w1 & c2 & -> & Hpre & Ho).
  exists c2. rewrite (NewClient_options_app _ _ _ _ _ _ Hpre).
  simpl. unfold bind. by rewrite Ho.
Qed.

(** The loop returns only in the two ways the vocabulary describes. *)
Lemma NewClient_options_inv os c w c' err w' :
  NewClient_options os c w = (w', Returns (c', err)) →
  match err with
  | None => options_applied os c w c' w'
  | Some e => option_fails os c w e w'
  end.
Proof.
  revert c w. induction os as [|o os IH]; intros c w; simpl.
  - intros [= <- <- <-]. constructor.
  - unfold bind. destruct (o c w) as [w1 [[c1 [e|]]|]] eqn:Ho; [..|done].
    + intros [= <- <- <-].
      exists [], o, os, c, w, c1. by repeat split; [constructor|].
    + intros Hos. specialize (IH _ _ Hos). destruct err as [e|].
      * destruct IH as (pre & o' & post & c2 & w2 & c3 & -> & Hpre & Ho').
        exists (o :: pre), o', post, c2, w2, c3.
        repeat split; [|done]. by econstructor.
      * by econstructor.
Qed.

Lemma options_applied_transport os c w c' w' :
  options_applied os c w c' w' →
  Forall keeps_transport os → transport c' = transport c.
Proof.
  induction 1 as [|o os c w c1 w1 c2 w2 Ho _ IH]; [done|].
  intros [Hk Hks]%Forall_cons. rewrite IH by done. by eapply Hk.
Qed.

Lemma base_url_usable c :
  ¬ base_url_unusable c ↔ ∃ u, url c = Some u ∧ url.IsAbs u = true.
Proof.
  unfold base_url_unusable. destruct (url c) as [u|].
  - destruct (url.IsAbs u) eqn:Habs.
    + split; [by eauto|]. intros _ [?|(? & [= <-] & ?)]; congruence.
    + split; [|by intros (? & [= <-] & ?); congruence].
      intros []. right. by eauto.
  - split; [|by intros (? & ? & _)]. intros []. by left.
Qed.

(** The options of the package other than [ClientTransport] leave the
    transport alone. *)
Lemma ClientURL_keeps_transport u : keeps_transport (ClientURL u).
Proof. by intros c w w' c' e [= <- <- <-]. Qed.

Lemma ClientRawURL_keeps_transport s : keeps_transport (ClientRawURL s).
Proof.
  intros c w w' c' e. unfold ClientRawURL. destruct (url_Parse s).
  by intros [= <- <- <-].
Qed.

Lemma ClientSID_keeps_transport s : keeps_transport (ClientSID s).
Proof. by intros c w w' c' e [= <- <- <-]. Qed.

Lemma NewClient_option_fails options w e w' :
  option_fails options initial_client w e w' →
  NewClient options w = (w', Returns (None, Some e)).
Proof.
  intros [c' Hf]%NewClient_options_fails.
  unfold NewClient, bind. fold initial_client. by rewrite Hf.
Qed.

(** C4: [NewClient] returns no client and an error if an option fails (the
    error is that option's) or if, all options applied, the base URL is nil
    or not absolute; it returns a client and no error if all options are
    applied and the base URL is absolute, and that client uses the default
    transport when no option touched the transport; and it returns in no
    other case. *)
Theorem NewClient_spec (options : list ClientOption) (w : World) :
  (∀ e w', option_fails options initial_client w e w' →
     NewClient options w = (w', Returns (None, Some e)))
  ∧ (∀ c w', options_applied options initial_client w c w' →
       base_url_unusable c →
       NewClient options w = (w', Returns (None, Some errURLMisconfigured)))
  ∧ (∀ c w', options_applied options initial_client w c w' →
       ¬ base_url_unusable c →
       NewClient options w = (w', Returns (Some c, None))
       ∧ (Forall keeps_transport options →
          transport c = Some http_DefaultTransport))
  ∧ (∀ w' res, NewClient options w = (w', Returns res) →
       (∃ e, res = (None, Some e)
             ∧ (option_fails options initial_client w e w'
                ∨ e = errURLMisconfigured
                  ∧ ∃ c, options_applied options initial_client w c w'
                         ∧ base_url_unusable c))
       ∨ (∃ c, res = (Some c, None)
               ∧ options_applied options initial_client w c w'
               ∧ ¬ base_url_unusable c)).
Proof.
  unfold NewClient. fold initial_client. split; [|split; [|split]].
  - intros e w'. apply NewClient_option_fails.
  - intros c w' Happ Hbad. unfold bind.
    rewrite (NewClient_options_applied _ _ _ _ _ Happ).
    destruct Hbad as [->|(u & -> & ->)]; done.
  - intros c w' Happ (u & Hu & Habs)%base_url_usable. split.
    + unfold bind. rewrite (NewClient_options_applied _ _ _ _ _ Happ).
      by rewrite Hu, Habs.
    + intros Hk. by rewrite (options_applied_transport _ _ _ _ _ Happ Hk).
  - intros w' res. unfold bind.
    destruct (NewClient_options options initial_client w)
      as [w1 [[c1 err]|]] eqn:Hos; [|done].
    apply NewClient_options_inv in Hos. destruct err as [e|].
    { intros [= <- <-]. left. by eauto. }
    destruct (url c1) as [u|] eqn:Hu.
    + destruct (url.IsAbs u) eqn:Habs; simpl; intros [= <- <-].
      * right. exists c1. repeat split; [done|].
        apply base_url_usable. by eauto.
      * left. eexists. split; [done|]. right. split; [done|].
        exists c1. split; [done|]. right. by eauto.
    + intros [= <- <-]. left. eexists. split; [done|]. right.
      split; [done|]. exists c1. split; [done|]. by left.
Qed.

End construction.

(** ** The URL of the request [Do] makes *)

(** C2, as stated, fails: a request without path is sent to the path of the
    base URL. *)
Lemma Do_final_URL_counterexample :
  ∃ hreq res,
    Do (H := example_platform) (H0 := example_Unmarshal_string)
      (example_client base_with_path (transport_body "T"))
      request_without_path None []
    = ([hreq], Returns res)
    ∧ Path request_without_path = ""
    ∧ url.Path (http_URL hreq) = "/base/".
Proof.
  exists (http_request base_with_path
            (example_client base_with_path (transport_body "T"))
            request_without_path), (None, None).
  repeat split.
Qed.

Section request_url.
Context `{Platform}.

(** C2, amended: the request [Do] makes has the encoded outgoing parameter
    set as its query, the scheme of the base URL and no fragment, whatever
    the base URL's own query and fragment. When the request's path begins
    with a slash and has no [.] or [..] segment, the final URL has exactly
    that path, and the base URL gives it only its scheme, user information
    and host (with port): the base URL's own path does not show. *)
Theorem Do_final_URL `{Unmarshaler D} (c : Client) (u : url.URL)
    (r : Request) (data : option D) (w : World) t :
  url c = Some u → transport c = Some t →
  ∃ hreq res,
    Do c r data w = (w ++ [hreq], Returns res)
    ∧ url.RawQuery (http_URL hreq) = url.Encode (outgoing c r)
    ∧ url.Scheme (http_URL hreq) = url.Scheme u
    ∧ url.Fragment (http_URL hreq) = ""
    ∧ (rooted (Path r) → dot_free (Path r) →
       http_URL hreq
       = {| url.Scheme := url.Scheme u; url.Opaque := "";
            url.User := url.User u; url.Host := url.Host u;
            url.Path := Path r; url.RawPath := ""; url.ForceQuery := false;
            url.RawQuery := url.Encode (outgoing c r); url.Fragment := "";
            url.RawFragment := "" |}).
Proof.
  intros Hu Ht. destruct (Do_returns c r data w u t Hu Ht) as [res Hdo].
  exists (http_request u c r), res. split; [done|].
  destruct (ResolveReference_query u (Path r) (url.Encode (outgoing c r))
              (Encode_outgoing_nonempty c r)) as (Hq & Hs & Hf).
  repeat split; [done..|].
  intros Hroot Hdots. by apply ResolveReference_rooted.
Qed.

End request_url.

(** ** The query of the request [Do] makes *)

Section request_query.
Context `{Platform}.

(** On a configured client [Do] makes one request; its query is the encoded
    parameter set, and splitting the query at [&] gives the components of
    that encoding. *)
Lemma Do_request `{Unmarshaler D} (c : Client) r (data : option D) w u t :
  url c = Some u → transport c = Some t →
  ∃ hreq res,
    Do c r data w = (w ++ [hreq], Returns res)
    ∧ hreq = http_request u c r
    ∧ url.RawQuery (http_URL hreq) = url.Encode (outgoing c r)
    ∧ strings_Split (url.RawQuery (http_URL hreq)) "&"
      = url.encode_components (outgoing c r).
Proof.
  intros Hu Ht. destruct (Do_returns c r data w u t Hu Ht) as [res Hdo].
  exists (http_request u c r), res. split; [done|]. split; [done|].
  destruct (ResolveReference_query u (Path r) (url.Encode (outgoing c r))
              (Encode_outgoing_nonempty c r)) as (Hq & _).
  split; [done|]. simpl in Hq |- *. rewrite Hq.
  apply strings_Split_Encode, encode_components_outgoing_nonempty.
Qed.

(** C1, amended: on a client with URL and transport, the [_sid] values of
    the query [Do] sends are the resolved session id (the request's [SID] if
    it is not empty, otherwise the client's cached session id if that is not
    empty, otherwise none) followed by the values the request's own
    parameters give to [_sid]. So the query has [_sid=SID] of the request
    whatever the client has cached, or else [_sid] of the client, for every
    request; that is the only [_sid] when the parameters bring none; and
    with both session ids empty the query has a [_sid] exactly when the
    parameters bring one. *)
Theorem Do_sid_precedence `{Unmarshaler D} (c : Client) (r : Request)
    (data : option D) (w : World) u t :
  url c = Some u → transport c = Some t →
  ∃ hreq res,
    Do c r data w = (w ++ [hreq], Returns res)
    ∧ url.RawQuery (http_URL hreq) = url.Encode (outgoing c r)
    ∧ (∀ e, "_sid=" +:+ url.QueryEscape e
              ∈ strings_Split (url.RawQuery (http_URL hreq)) "&"
            ↔ e ∈ url.values_of (outgoing c r) "_sid")
    ∧ (SID r ≠ "" →
       url.values_of (outgoing c r) "_sid"
       = SID r :: url.values_of (Params r) "_sid")
    ∧ (SID r = "" → sid c ≠ "" →
       url.values_of (outgoing c r) "_sid"
       = sid c :: url.values_of (Params r) "_sid")
    ∧ (SID r = "" → sid c = "" →
       url.values_of (outgoing c r) "_sid"
       = url.values_of (Params r) "_sid").
Proof.
  intros Hu Ht.
  destruct (Do_request c r data w u t Hu Ht) as (hreq & res & Hdo & _ & Hq & Hs).
  exists hreq, res. split; [done|]. split; [done|]. split.
  { intros e. rewrite Hs.
    apply (elem_of_encode_components_key (outgoing c r) "_sid" e). }
  rewrite outgoing_values. simpl.
  repeat split; intros; repeat (case_decide; simplify_eq/=; try done).
Qed.

End request_query.

(** C1, as stated, fails: with no session id on the request and none cached
    by the client, a [_sid] value among the request's parameters is still
    sent. *)
Lemma Do_sid_precedence_counterexample :
  ∃ hreq res,
    Do (H := example_platform) (H0 := example_Unmarshal_string)
      (example_client example_base (transport_body "T"))
      request_with_sid_param None []
    = ([hreq], Returns res)
    ∧ SID request_with_sid_param = ""
    ∧ sid (example_client example_base (transport_body "T")) = ""
    ∧ url.RawQuery (http_URL hreq) = "_sid=x&api=api&method=m&version=1".
Proof.
  exists (http_request example_base
            (example_client example_base (transport_body "T"))
            request_with_sid_param), (None, None).
  repeat split.
Qed.

Lemma Do_sid_precedence_witness :
  ∃ hreq res,
    Do (H := example_platform) (H0 := example_Unmarshal_string)
      {| url := Some example_base; transport := Some (transport_body "T");
         sid := "S" |}
      {| Path := "/p"; API := "a"; Version := "1"; Method := "m";
         Params := {["foo" := ["bar"]]}; SID := "R" |} None []
    = ([] ++ [hreq], Returns res)
    ∧ url.RawQuery (http_URL hreq) = "_sid=R&api=a&foo=bar&method=m&version=1"
    ∧ (∀ e, "_sid=" +:+ url.QueryEscape e
              ∈ strings_Split (url.RawQuery (http_URL hreq)) "&"
            ↔ e ∈ ["R"]).
Proof.
  destruct (@Do_sid_precedence example_platform string
              example_Unmarshal_string
              {| url := Some example_base;
                 transport := Some (transport_body "T"); sid := "S" |}
              {| Path := "/p"; API := "a"; Version := "1"; Method := "m";
                 Params := {["foo" := ["bar"]]}; SID := "R" |} None []
              example_base (transport_body "T") eq_refl eq_refl)
    as (hreq & res & Hdo & Hq & Hmem & Hreq & _).
  exists hreq, res. split; [exact Hdo|]. split; [exact Hq|].
  intros e. rewrite (Hmem e), Hreq; [reflexivity|discriminate].
Defined.

(** ** Login during construction *)

Section login.
Context `{Platform} `{Unmarshaler AuthLoginResponse}.

(** What [ClientLogin] does on a configured client, by the answer of the
    transport. *)
Lemma ClientLogin_run l c w u t req :
  url c = Some u → transport c = Some t →
  marshalRequest (set_Format "sid" l) = (Some req, None) →
  ClientLogin l c w
  = (w ++ [http_request u c req],
     Returns
       match t w (http_request u c req) with
       | inr e => (c, Some e)
       | inl body =>
           match json_Decode body with
           | inr e => (c, Some e)
           | inl resp =>
               if Success resp then
                 match json_Unmarshal (Data resp)
                         {| AuthLoginResponse_SID := ""; Cookie := "" |} with
                 | (_, Some e) => (c, Some e)
                 | (res, None) => (set_sid (AuthLoginResponse_SID res) c, None)
                 end
               else (c, Some (APIError (Error_Code resp)))
           end
       end).
Proof.
  intros Hu Ht Hm. unfold ClientLogin, bind.
  rewrite (Call_marshaled _ _ _ _ Hm). run_Do.
  destruct (t w (http_request u c req)) as [body|e]; simpl; [|done].
  destruct (json_Decode body) as [resp|e]; simpl; [|done].
  destruct (Success resp); simpl; [|done].
  by destruct (json_Unmarshal (Data resp) _) as [res [e|]].
Qed.

Lemma ClientLogin_keeps_transport l : keeps_transport (ClientLogin l).
Proof.
  intros c w w' c' e Hlogin.
  destruct (url c) as [u|] eqn:Hu; [destruct (transport c) as [t|] eqn:Ht|].
  - rewrite (ClientLogin_run l c w u t _ Hu Ht eq_refl) in Hlogin.
    injection Hlogin as _ Hres.
    destruct (t w _) as [body|?]; [|by injection Hres as <- _].
    destruct (json_Decode body) as [resp|?]; [|by injection Hres as <- _].
    destruct (Success resp); [|by injection Hres as <- _].
    destruct (json_Unmarshal _ _) as [res [?|]]; by injection Hres as <- _.
  - unfold ClientLogin, bind in Hlogin.
    rewrite (Call_marshaled c (set_Format "sid" l) _ _ eq_refl), Do_nil
      in Hlogin by auto.
    done.
  - unfold ClientLogin, bind in Hlogin.
    rewrite (Call_marshaled c (set_Format "sid" l) _ _ eq_refl), Do_nil
      in Hlogin by auto.
    done.
Qed.

(** The login request has [format=sid] among its parameters. *)
Lemma login_request_format l c req :
  marshalRequest (set_Format "sid" l) = (Some req, None) →
  outgoing c req !! "format" = Some ["sid"].
Proof.
  intros [= <-]. rewrite outgoing_lookup, outgoing_values. simpl.
  unfold url.values_of. rewrite lookup_dropEmpty.
  by rewrite !lookup_insert_ne, lookup_insert_eq by done.
Qed.

(** C5: on a client with a URL and a transport, [ClientLogin] makes exactly
    one request, built from that client and sent through its transport, and
    returns. If the response is a successful envelope whose payload
    unmarshals, no error is returned and the client's session id is the
    [SID] of the unmarshaled response; URL and transport are as they were.
    If the request fails (the transport fails, the body is no envelope, the
    envelope reports an API error, or the payload does not unmarshal), the
    option returns that error, and [NewClient], whatever options follow,
    returns no client and that same error. *)
Theorem ClientLogin_spec (l : AuthLogin) (c : Client) (w : World) u t :
  url c = Some u → transport c = Some t →
  ∃ req c' err,
    marshalRequest (set_Format "sid" l) = (Some req, None)
    ∧ ClientLogin l c w = (w ++ [http_request u c req], Returns (c', err))
    ∧ (∀ body resp res,
         t w (http_request u c req) = inl body →
         json_Decode body = inl resp → Success resp = true →
         json_Unmarshal (Data resp)
           {| AuthLoginResponse_SID := ""; Cookie := "" |} = (res, None) →
         err = None ∧ sid c' = AuthLoginResponse_SID res
         ∧ url c' = url c ∧ transport c' = transport c)
    ∧ (∀ e, t w (http_request u c req) = inr e → err = Some e)
    ∧ (∀ body e, t w (http_request u c req) = inl body →
         json_Decode body = inr e → err = Some e)
    ∧ (∀ body resp, t w (http_request u c req) = inl body →
         json_Decode body = inl resp → Success resp = false →
         err = Some (APIError (Error_Code resp)))
    ∧ (∀ body resp res e, t w (http_request u c req) = inl body →
         json_Decode body = inl resp → Success resp = true →
         json_Unmarshal (Data resp)
           {| AuthLoginResponse_SID := ""; Cookie := "" |} = (res, Some e) →
         err = Some e)
    ∧ (∀ e, err = Some e → ∀ pre post w0,
         options_applied pre initial_client w0 c w →
         NewClient (pre ++ ClientLogin l :: post) w0
         = (w ++ [http_request u c req], Returns (None, Some e))).
Proof.
  intros Hu Ht.
  destruct (marshalRequest (set_Format "sid" l)) as [req' err'] eqn:Hm.
  assert (∃ req, req' = Some req ∧ err' = None) as (req & -> & ->)
    by (injection Hm as <- <-; by eauto).
  pose proof (ClientLogin_run l c w u t req Hu Ht Hm) as Hrun.
  destruct (ClientLogin l c w) as [w' [[c' err]|]] eqn:Hlogin;
    [|by destruct (t w _) as [?|?]].
  injection Hrun as -> Hres.
  exists req, c', err. split; [done|]. split; [done|].
  split; [|split; [|split; [|split; [|split]]]].
  - intros body resp res Hb Hd Hs Hj. rewrite Hb, Hd, Hs, Hj in Hres.
    by injection Hres as -> ->.
  - intros e Hb. rewrite Hb in Hres. by injection Hres as -> ->.
  - intros body e Hb Hd. rewrite Hb, Hd in Hres. by injection Hres as -> ->.
  - intros body resp Hb Hd Hs. rewrite Hb, Hd, Hs in Hres.
    by injection Hres as -> ->.
  - intros body resp res e Hb Hd Hs Hj. rewrite Hb, Hd, Hs, Hj in Hres.
    by injection Hres as -> ->.
  - intros e -> pre post w0 Hpre. apply NewClient_option_fails.
    by exists pre, (ClientLogin l), post, c, w, c'.
Qed.

(** C10: the one request [ClientLogin] makes has a query that encodes a
    parameter set in which [format] is bound to exactly [sid], so that the
    query has the component [format=sid]; the [Format] the caller put in
    the credentials makes no difference to what [ClientLogin] does. *)
Theorem ClientLogin_format (l : AuthLogin) (c : Client) (w : World) u t :
  url c = Some u → transport c = Some t →
  ∃ hreq v res,
    ClientLogin l c w = (w ++ [hreq], Returns res)
    ∧ url.RawQuery (http_URL hreq) = url.Encode v
    ∧ v !! "format" = Some ["sid"]
    ∧ "format=sid" ∈ url.encode_components v
    ∧ ∀ f, ClientLogin (set_Format f l) c w = ClientLogin l c w.
Proof.
  intros Hu Ht.
  destruct (marshalRequest (set_Format "sid" l)) as [req' err'] eqn:Hm.
  assert (∃ req, req' = Some req ∧ err' = None) as (req & -> & ->)
    by (injection Hm as <- <-; by eauto).
  eexists (http_request u c req), (outgoing c req), _.
  split; [by apply ClientLogin_run|].
  pose proof (login_request_format l c req Hm) as Hformat.
  split; [|split; [done|split]].
  - by apply ResolveReference_query, Encode_outgoing_nonempty.
  - apply (elem_of_encode_components _ "format" ["sid"] "sid" Hformat).
    by left.
  - done.
Qed.

End login.

(** ** The package's tests, run on the model *)

Example TestDropEmpty :
  dropEmpty (<["keep" := ["foo"]]> {["drop" := [""]]}) = {["keep" := ["foo"]]}.
Proof. reflexivity. Qed.

Example TestAuthLoginMarshal :
  marshalRequest {| Account := "a"; Password := "b"; Session := "";
                    Format := ""; OTPCode := "" |}
  = (Some {| Path := authLoginPath; API := authLoginAPI;
             Version := authLoginVersion; Method := "login";
             Params := <["account" := ["a"]]> {["passwd" := ["b"]]};
             SID := "" |}, None).
Proof. reflexivity. Qed.

Example TestDownloadTaskCreateMarshal :
  marshalRequest {| URI := "foo"; Username := "";
                    DownloadTaskCreate_Password := ""; UnzipPassword := "";
                    Destination := "" |}
  = (Some {| Path := downloadTaskPath; API := downloadTaskAPI;
             Version := downloadTaskVersion; Method := "create";
             Params := {["uri" := ["foo"]]}; SID := "" |}, None).
Proof. reflexivity. Qed.

Example TestClientDoSuccess :
  ∃ hreq,
    Do (H := example_platform) (H0 := example_Unmarshal_string)
      (example_client example_base (transport_body "Tdata"))
      {| Path := ""; API := "api"; Version := "version"; Method := "method";
         Params := {["foo" := ["foo"]]}; SID := "" |} (Some "") []
    = ([hreq], Returns (Some "data", None))
    ∧ url.Scheme (http_URL hreq) = "http"
    ∧ url.Host (http_URL hreq) = "foo.com"
    ∧ url.RawQuery (http_URL hreq)
      = "api=api&foo=foo&method=method&version=version".
Proof.
  exists (http_request example_base
            (example_client example_base (transport_body "Tdata"))
            {| Path := ""; API := "api"; Version := "version";
               Method := "method"; Params := {["foo" := ["foo"]]};
               SID := "" |}).
  repeat split.
Qed.

Example TestClientDoRequestSID :
  url.Encode
    (outgoing {| url := None; transport := None; sid := "clientSID" |}
       {| Path := ""; API := ""; Version := ""; Method := "";
          Params := ∅; SID := "reqSID" |})
  = "_sid=reqSID&api=&method=&version=".
Proof. reflexivity. Qed.

Example TestClientDoTransportError :
  ∃ w,
    Do (H := example_platform) (H0 := example_Unmarshal_string)
      (example_client example_base (transport_error (ForeignError "given")))
      request_without_path None []
    = (w, Returns (None, Some (ForeignError "given"))).
Proof.
  by exists [http_request example_base
               (example_client example_base
                  (transport_error (ForeignError "given")))
               request_without_path].
Qed.

Example TestNewClientURLNil :
  NewClient (H := example_platform) [] []
  = ([], Returns (None, Some errURLMisconfigured)).
Proof. reflexivity. Qed.

Example TestNewClientURLNotAbsolute :
  NewClient (H := example_platform) [ClientURL (Some url.URL_zero)] []
  = ([], Returns (None, Some errURLMisconfigured)).
Proof. reflexivity. Qed.

Example TestClientLoginError :
  ∃ w,
    NewClient (H := example_platform)
      [ClientRawURL (H := example_platform) "http://foo.com/";
       ClientTransport (Some (transport_error (ForeignError "given")));
       ClientLogin (H := example_platform)
         (H0 := example_Unmarshal_AuthLoginResponse) example_login] []
    = (w, Returns (None, Some (ForeignError "given"))) ∧ length w = 1.
Proof.
  destruct (NewClient _ _) as [w res] eqn:Hnew. exists w.
  vm_compute in Hnew. by injection Hnew as <- <-.
Qed.

(** ** The theorems at work on the example platform *)

Lemma DownloadTaskList_marshal_witness :
  ∃ r, marshalRequest {| Offset := 3; Limit := 0; Additional := ["x"] |}
       = (Some r, None)
       ∧ Params r !! "offset" = Some ["3"]
       ∧ Params r !! "limit" = None
       ∧ Params r !! "additional" = Some ["x"]
       ∧ Params r !! "_sid" = None.
Proof.
  destruct (proj2 (proj2 DownloadTaskList_marshal)
              {| Offset := 3; Limit := 0; Additional := ["x"] |})
    as (r & Hr & HO & HL & HA & Hk).
  exists r. repeat split; [exact Hr|exact HO|exact HL|exact HA|].
  apply Hk. intros Hin. repeat (apply elem_of_cons in Hin as [[=]|Hin]).
  by apply elem_of_nil in Hin.
Defined.

Lemma Do_envelope_witness :
  Do (H := example_platform) (H0 := example_Unmarshal_string)
    (example_client example_base (transport_body "Tdata"))
    example_request (Some "") []
  = ([http_request example_base
        (example_client example_base (transport_body "Tdata"))
        example_request],
     Returns (Some "data", None))
  ∧ Do (H := example_platform) (H0 := example_Unmarshal_string)
      (example_client example_base (transport_body "F"))
      example_request (Some "") []
    = ([http_request example_base
          (example_client example_base (transport_body "F"))
          example_request],
       Returns (Some "", Some (APIError ErrorUnknown))).
Proof.
  split.
  - destruct (@Do_envelope example_platform string example_Unmarshal_string
                (example_client example_base (transport_body "Tdata"))
                example_request (Some "") [] example_base
                (transport_body "Tdata") "Tdata"
                {| Success := true; Error_Code := 0%Z; Data := "data" |}
                eq_refl eq_refl eq_refl eq_refl) as (_ & Hok & _).
    exact (Hok eq_refl "" eq_refl).
  - destruct (@Do_envelope example_platform string example_Unmarshal_string
                (example_client example_base (transport_body "F"))
                example_request (Some "") [] example_base
                (transport_body "F") "F"
                {| Success := false; Error_Code := 100%Z; Data := "" |}
                eq_refl eq_refl eq_refl eq_refl) as (Hfail & _).
    exact (Hfail eq_refl).
Defined.

Lemma Call_spec_witness :
  Call (H := example_platform) (H0 := failing_marshal)
    (H1 := example_Unmarshal_string)
    (example_client example_base (transport_body "Tdata")) () None []
  = ([], Returns (None, Some (ForeignError "marshal")))
  ∧ Call (H := example_platform) (H1 := example_Unmarshal_string)
      (example_client example_base (transport_body "Tdata")) example_login None
    = Do (H := example_platform) (H0 := example_Unmarshal_string)
        (example_client example_base (transport_body "Tdata"))
        {| Path := authLoginPath; API := authLoginAPI;
           Version := authLoginVersion; Method := "login";
           Params := {["account" := ["account"]; "passwd" := ["password"];
                       "format" := ["cookie"]]};
           SID := "" |} None.
Proof.
  split.
  - apply (proj1 (@Call_spec example_platform unit failing_marshal string
                    example_Unmarshal_string
                    (example_client example_base (transport_body "Tdata"))
                    () None) None (ForeignError "marshal") []).
    reflexivity.
  - apply (proj2 (@Call_spec example_platform AuthLogin _ string
                    example_Unmarshal_string
                    (example_client example_base (transport_body "Tdata"))
                    example_login None)).
    reflexivity.
Defined.

Lemma NewClient_spec_witness :
  NewClient (H := example_platform) [ClientURL (Some example_base)] []
  = ([], Returns (Some (example_client example_base
                          (http_DefaultTransport (Platform := example_platform))),
                  None))
  ∧ NewClient (H := example_platform)
      [ClientSID "s"; ClientURL None] []
    = ([], Returns (None, Some errURLMisconfigured))
  ∧ NewClient (H := example_platform)
      [ClientRawURL (H := example_platform) "::"; ClientSID "s"] []
    = ([], Returns (None, Some (ForeignError "parse"))).
Proof.
  split; [|split].
  - apply (proj1 (proj2 (proj2 (@NewClient_spec example_platform
             [ClientURL (Some example_base)] [])))).
    + eapply applied_cons; [reflexivity|apply applied_nil].
    + intros [[=]|(u & [= <-] & [=])].
  - apply (proj1 (proj2 (@NewClient_spec example_platform
             [ClientSID "s"; ClientURL None] []))
             {| url := None;
                transport := Some
                  (http_DefaultTransport (Platform := example_platform));
                sid := "s" |}).
    + eapply applied_cons; [reflexivity|].
      eapply applied_cons; [reflexivity|apply applied_nil].
    + by left.
  - apply (proj1 (@NewClient_spec example_platform
             [ClientRawURL (H := example_platform) "::"; ClientSID "s"] [])).
    exists [], (ClientRawURL (H := example_platform) "::"), [ClientSID "s"],
      (initial_client (H := example_platform)), [],
      (initial_client (H := example_platform)).
    split; [reflexivity|]. split; [apply applied_nil|reflexivity].
Defined.

Lemma Do_final_URL_witness :
  ∃ hreq res,
    Do (H := example_platform) (H0 := example_Unmarshal_string)
      (example_client base_with_path (transport_body "Tdata"))
      example_request (Some "") []
    = ([hreq], Returns res)
    ∧ url.Path (http_URL hreq) = "/webapi/entry.cgi"
    ∧ url.Host (http_URL hreq) = "foo.com"
    ∧ url.RawQuery (http_URL hreq)
      = "api=api&foo=foo&method=method&version=version".
Proof.
  destruct (@Do_final_URL example_platform string example_Unmarshal_string
              (example_client base_with_path (transport_body "Tdata"))
              base_with_path example_request (Some "") []
              (transport_body "Tdata") eq_refl eq_refl)
    as (hreq & res & Hdo & Hq & _ & _ & Hurl).
  exists hreq, res. split; [exact Hdo|].
  assert (Hroot : rooted (Path example_request)) by (by eexists).
  assert (Hdots : dot_free (Path example_request)).
  { unfold dot_free. simpl.
    repeat (constructor; [split; discriminate|]). constructor. }
  rewrite (Hurl Hroot Hdots). repeat split.
Defined.

Lemma ClientLogin_spec_witness :
  ∃ hreq c',
    ClientLogin (H := example_platform)
      (H0 := example_Unmarshal_AuthLoginResponse) example_login
      (example_client example_base (transport_body "Tsid")) []
    = ([hreq], Returns (c', None))
    ∧ sid c' = "sid".
Proof.
  destruct (@ClientLogin_spec example_platform
              example_Unmarshal_AuthLoginResponse example_login
              (example_client example_base (transport_body "Tsid")) []
              example_base (transport_body "Tsid") eq_refl eq_refl)
    as (req & c' & err & Hm & Hrun & Hok & _).
  destruct (Hok "Tsid" {| Success := true; Error_Code := 0%Z; Data := "sid" |}
              {| AuthLoginResponse_SID := "sid"; Cookie := "" |}
              eq_refl eq_refl eq_refl eq_refl) as (Herr & Hsid & _).
  exists (http_request example_base
            (example_client example_base (transport_body "Tsid")) req), c'.
  split; [|exact Hsid]. rewrite Herr in Hrun. exact Hrun.
Defined.

Lemma ClientLogin_format_witness :
  ∃ hreq v res,
    ClientLogin (H := example_platform)
      (H0 := example_Unmarshal_AuthLoginResponse) example_login
      (example_client example_base (transport_error (ForeignError "down"))) []
    = ([] ++ [hreq], Returns res)
    ∧ url.RawQuery (http_URL hreq) = url.Encode v
    ∧ v !! "format" = Some ["sid"]
    ∧ "format=sid" ∈ url.encode_components v
    ∧ ∀ f, ClientLogin (H := example_platform)
             (H0 := example_Unmarshal_AuthLoginResponse)
             (set_Format f example_login)
             (example_client example_base
                (transport_error (ForeignError "down"))) []
           = ClientLogin (H := example_platform)
               (H0 := example_Unmarshal_AuthLoginResponse) example_login
               (example_client example_base
                  (transport_error (ForeignError "down"))) [].
Proof.
  exact (@ClientLogin_format example_platform
           example_Unmarshal_AuthLoginResponse example_login
           (example_client example_base (transport_error (ForeignError "down")))
           [] example_base (transport_error (ForeignError "down"))
           eq_refl eq_refl).
Defined.

(** * Further properties of the package *)

(** ** Empty-value elision, continued *)

(** X1: [dropEmpty] is idempotent: eliding twice is eliding once. *)
Theorem dropEmpty_idempotent (p : url.Values) :
  dropEmpty (dropEmpty p) = dropEmpty p.
Proof.
  apply map_eq. intros k. rewrite !lookup_dropEmpty.
  destruct (decide (p !! k = Some [""])) as [Hk|Hk].
  - by rewrite decide_False.
  - by rewrite decide_False.
Qed.

(** X2: the result of [dropEmpty] is a part of its argument in which no key is
    bound to a single empty string, and [dropEmpty] changes nothing exactly
    when its argument has no such key. *)
Theorem dropEmpty_result (p : url.Values) :
  dropEmpty p ⊆ p
  ∧ (∀ k, dropEmpty p !! k ≠ Some [""])
  ∧ (dropEmpty p = p ↔ ∀ k, p !! k ≠ Some [""]).
Proof.
  split; [|split].
  - apply map_subseteq_spec. intros k l. rewrite lookup_dropEmpty.
    by case_decide.
  - intros k. rewrite lookup_dropEmpty. by case_decide.
  - split.
    + intros Heq k Hk. pose proof (lookup_dropEmpty p k) as Hl.
      rewrite Heq, decide_True in Hl by done. congruence.
    + intros Hp. apply map_eq. intros k. rewrite lookup_dropEmpty.
      by rewrite decide_False.
Qed.

(** ** Marshaling, continued *)

(** A parameter set written as a literal of single-valued keys: after
    [dropEmpty] a key is bound exactly when its value is not empty. *)
Lemma lookup_dropEmpty_single (p : url.Values) k e :
  p !! k = Some [e] →
  dropEmpty p !! k = if decide (e = "") then None else Some [e].
Proof.
  intros Hk. rewrite lookup_dropEmpty, Hk.
  destruct (decide (e = "")) as [->|He]; [by rewrite decide_True|].
  rewrite decide_False; [done|]. by intros [= ->].
Qed.

(** X3: marshaling a login request never fails; the request goes to the
    login endpoint with method [login] and no session id of its own, and each
    of the five parameters is sent, as a single value, exactly when its field
    is not empty; nothing else is sent. *)
Theorem AuthLogin_marshal (a : AuthLogin) :
  ∃ r, marshalRequest a = (Some r, None)
    ∧ Path r = "/webapi/auth.cgi" ∧ API r = "SYNO.API.Auth"
    ∧ Version r = "3" ∧ Method r = "login" ∧ SID r = ""
    ∧ Params r !! "account"
      = (if decide (Account a = "") then None else Some [Account a])
    ∧ Params r !! "passwd"
      = (if decide (Password a = "") then None else Some [Password a])
    ∧ Params r !! "session"
      = (if decide (Session a = "") then None else Some [Session a])
    ∧ Params r !! "format"
      = (if decide (Format a = "") then None else Some [Format a])
    ∧ Params r !! "otp_code"
      = (if decide (OTPCode a = "") then None else Some [OTPCode a])
    ∧ ∀ k, k ∉ ["account"; "passwd"; "session"; "format"; "otp_code"] →
           Params r !! k = None.
Proof.
  eexists. split; [reflexivity|]. simpl.
  do 5 (split; [reflexivity|]).
  do 5 (split; [by apply lookup_dropEmpty_single|]).
  intros k Hk. rewrite lookup_dropEmpty.
  rewrite !lookup_insert_ne, lookup_empty by (intros <-; apply Hk; set_solver).
  by rewrite decide_False.
Qed.

(** X4: marshaling a create-task request never fails; the request goes to
    the download-task endpoint with method [create] and no session id of its
    own, and each of the five parameters is sent, as a single value, exactly
    when its field is not empty; nothing else is sent. *)
Theorem DownloadTaskCreate_marshal (d : DownloadTaskCreate) :
  ∃ r, marshalRequest d = (Some r, None)
    ∧ Path r = "/webapi/DownloadStation/task.cgi"
    ∧ API r = "SYNO.DownloadStation.Task"
    ∧ Version r = "1" ∧ Method r = "create" ∧ SID r = ""
    ∧ Params r !! "uri" = (if decide (URI d = "") then None else Some [URI d])
    ∧ Params r !! "username"
      = (if decide (Username d = "") then None else Some [Username d])
    ∧ Params r !! "password"
      = (if decide (DownloadTaskCreate_Password d = "") then None
         else Some [DownloadTaskCreate_Password d])
    ∧ Params r !! "unzip_password"
      = (if decide (UnzipPassword d = "") then None
         else Some [UnzipPassword d])
    ∧ Params r !! "destination"
      = (if decide (Destination d = "") then None else Some [Destination d])
    ∧ ∀ k, k ∉ ["uri"; "username"; "password"; "unzip_password";
                "destination"] → Params r !! k = None.
Proof.
  eexists. split; [reflexivity|]. simpl.
  do 5 (split; [reflexivity|]).
  do 5 (split; [by apply lookup_dropEmpty_single|]).
  intros k Hk. rewrite lookup_dropEmpty.
  rewrite !lookup_insert_ne, lookup_empty by (intros <-; apply Hk; set_solver).
  by rewrite decide_False.
Qed.

(** ** Rendering of API errors, continued *)

Lemma Error_Error_generic (e : Error) :
  errStrings !! e = None →
  Error_Error e = "syno: error code " +:+ strconv_Itoa e.
Proof. unfold Error_Error. by intros ->. Qed.

Lemma errStrings_cases (e : Error) :
  errStrings !! e = None ∨ e ∈ [100; 101; 102; 103; 104; 105; 106; 107]%Z.
Proof.
  rewrite errStrings_lookup.
  repeat (case_decide; [right; subst e; set_solver|]). by left.
Qed.

Lemma Error_Error_inj (e1 e2 : Error) :
  Error_Error e1 = Error_Error e2 → e1 = e2.
Proof.
  destruct (errStrings_cases e1) as [H1|H1], (errStrings_cases e2) as [H2|H2].
  - rewrite !Error_Error_generic by done. intros Heq.
    apply (inj (String.app _)) in Heq. by apply (inj pretty) in Heq.
  - rewrite (Error_Error_generic e1) by done.
    repeat (apply elem_of_cons in H2 as [->|H2]; [by intros [=]|]).
    by apply elem_of_nil in H2.
  - rewrite (Error_Error_generic e2) by done.
    repeat (apply elem_of_cons in H1 as [->|H1]; [by intros [=]|]).
    by apply elem_of_nil in H1.
  - repeat (apply elem_of_cons in H1 as [->|H1];
      [repeat (apply elem_of_cons in H2 as [->|H2];
         [first [done | by intros [=]]|]); by apply elem_of_nil in H2|]).
    by apply elem_of_nil in H1.
Qed.

(** X5: the rendering tells the codes apart: errors with different codes
    have different messages, inside the table and outside. *)
Theorem Error_Error_distinct (e1 e2 : Error) :
  e1 ≠ e2 → Error_Error e1 ≠ Error_Error e2.
Proof. intros Hne Heq. by apply Hne, Error_Error_inj. Qed.

(** ** Request execution, continued *)

Section execution_more.
Context `{Platform}.

(** X6: a failure of the transport, and a body the decoder rejects, are
    returned as they are; one request was made and the destination is as it
    was. *)
Theorem Do_error_verbatim `{Unmarshaler D} (c : Client) (r : Request)
    (data : option D) (w : World) u t :
  url c = Some u → transport c = Some t →
  (∀ e, t w (http_request u c r) = inr e →
     Do c r data w = (w ++ [http_request u c r], Returns (data, Some e)))
  ∧ (∀ body e, t w (http_request u c r) = inl body →
       json_Decode body = inr e →
       Do c r data w = (w ++ [http_request u c r], Returns (data, Some e))).
Proof.
  intros Hu Ht. split.
  - intros e. by apply Do_transport_error.
  - intros body e. by apply Do_decode_error.
Qed.

(** X7: no retries. A call makes no request or exactly one, and leaves the
    requests made before it as they were. *)
Theorem Call_at_most_one_request `{MarshalRequest T} `{Unmarshaler D}
    (c : Client) (x : T) (r : Request) (data : option D) (w : World) :
  (∀ w' out, Do c r data w = (w', out) →
     w' = w ∨ ∃ hreq, w' = w ++ [hreq])
  ∧ (∀ w' out, Call c x data w = (w', out) →
       w' = w ∨ ∃ hreq, w' = w ++ [hreq]).
Proof.
  assert (HDo : ∀ r w' out, Do c r data w = (w', out) →
                            w' = w ∨ ∃ hreq, w' = w ++ [hreq]).
  { intros r' w' out. destruct (url c) as [u|] eqn:Hu;
      [destruct (transport c) as [t|] eqn:Ht|].
    - destruct (Do_returns c r' data w u t Hu Ht) as [res ->].
      intros [= <- _]. right. by eauto.
    - rewrite Do_nil by auto. intros [= <- _]. by left.
    - rewrite Do_nil by auto. intros [= <- _]. by left. }
  split; [apply HDo|]. intros w' out. unfold Call.
  destruct (marshalRequest x) as [[req|] [e|]]; [|apply HDo|..];
    intros [= <- _]; by left.
Qed.

End execution_more.

(** ** Client construction, continued *)

Section construction_more.
Context `{Platform}.

Lemma options_applied_snoc os o c w c1 w1 c2 w2 :
  options_applied os c w c1 w1 →
  o c1 w1 = (w2, Returns (c2, None)) →
  options_applied (os ++ [o]) c w c2 w2.
Proof.
  induction 1 as [|o' os c w c1' w1' c1 w1 Ho' _ IH]; intros Ho; simpl.
  - eapply applied_cons; [done|constructor].
  - eapply applied_cons; [done|]. by apply IH.
Qed.

Lemma NewClient_applied options w c w' u :
  options_applied options initial_client w c w' →
  url c = Some u → url.IsAbs u = true →
  NewClient options w = (w', Returns (Some c, None)).
Proof.
  intros Happ Hu Habs. unfold NewClient, bind. fold initial_client.
  rewrite (NewClient_options_applied _ _ _ _ _ Happ). by rewrite Hu, Habs.
Qed.

Lemma plain_option_returns o c w :
  plain_option o → ∃ c' err, o c w = (w, Returns (c', err)).
Proof.
  intros [u|s|t|s]; unfold ClientURL, ClientRawURL, ClientTransport, ClientSID,
    ret; [by eauto|..|by eauto|by eauto].
  destruct (url_Parse s). by eauto.
Qed.

(** X10: a client can be constructed offline. With options among
    [ClientURL], [ClientRawURL], [ClientTransport] and [ClientSID] only,
    [NewClient] returns and makes no request. *)
Theorem NewClient_offline (options : list ClientOption) (w : World) :
  Forall plain_option options →
  ∃ res, NewClient options w = (w, Returns res).
Proof.
  intros Hplain.
  assert (∃ c' err, NewClient_options options initial_client w
                    = (w, Returns (c', err))) as (c' & err & Hos).
  { generalize initial_client. induction Hplain as [|o os Ho _ IH]; intros c.
    - by eexists _, _.
    - simpl. unfold bind.
      destruct (plain_option_returns o c w Ho) as (c1 & [e|] & ->);
        [by eexists _, _|apply IH]. }
  unfold NewClient, bind. fold initial_client. rewrite Hos.
  destruct err; [by eauto|]. destruct (url c') as [u|]; [|by eauto].
  destruct (url.IsAbs u); by eauto.
Qed.

(** X11: options apply in order, so the last word counts: after options
    that went through, a final [ClientSID], [ClientTransport] or [ClientURL]
    decides the session id, the transport or the URL of the client returned,
    and the rest of the client is as the earlier options left it. *)
Theorem NewClient_last_option (options : list ClientOption) (w w' : World)
    (c : Client) :
  options_applied options initial_client w c w' →
  (∀ s u, url c = Some u → url.IsAbs u = true →
     NewClient (options ++ [ClientSID s]) w
     = (w', Returns (Some (set_sid s c), None)))
  ∧ (∀ t u, url c = Some u → url.IsAbs u = true →
       NewClient (options ++ [ClientTransport t]) w
       = (w', Returns (Some (set_transport t c), None)))
  ∧ (∀ u, url.IsAbs u = true →
       NewClient (options ++ [ClientURL (Some u)]) w
       = (w', Returns (Some (set_url (Some u) c), None))).
Proof.
  intros Happ. split; [|split].
  - intros s u Hu Habs. eapply NewClient_applied; [|exact Hu|exact Habs].
    by eapply options_applied_snoc.
  - intros t u Hu Habs. eapply NewClient_applied; [|exact Hu|exact Habs].
    by eapply options_applied_snoc.
  - intros u Habs. eapply NewClient_applied; [|reflexivity|exact Habs].
    by eapply options_applied_snoc.
Qed.

(** X12: a raw URL that does not parse makes construction fail with the
    parser's error, whatever options follow; one that parses gives the
    client that URL, and construction then succeeds or fails with
    [errURLMisconfigured] by whether the parsed URL has a scheme. *)
Theorem NewClient_raw_URL (s : string) :
  (∀ parsed e pre post w c w1,
     url_Parse s = (parsed, Some e) →
     options_applied pre initial_client w c w1 →
     NewClient (pre ++ ClientRawURL s :: post) w
     = (w1, Returns (None, Some e)))
  ∧ (∀ u w, url_Parse s = (Some u, None) →
       NewClient [ClientRawURL s] w
       = (w, Returns (if url.IsAbs u
                      then (Some (set_url (Some u) initial_client), None)
                      else (None, Some errURLMisconfigured)))).
Proof.
  split.
  - intros parsed e pre post w c w1 Hparse Hpre.
    apply NewClient_option_fails.
    exists pre, (ClientRawURL s), post, c, w1, (set_url parsed c).
    split; [done|]. split; [done|]. unfold ClientRawURL. by rewrite Hparse.
  - intros u w Hparse. unfold NewClient, bind. simpl.
    unfold bind, ClientRawURL. rewrite Hparse. simpl.
    by destruct (url.IsAbs u).
Qed.

End construction_more.

Section construction_invariants.
Context `{Platform}.

Lemma NewClient_returns_inv (options : list ClientOption) (w w' : World) res :
  NewClient options w = (w', Returns res) →
  (∃ e, res = (None, Some e))
  ∨ (∃ c u, res = (Some c, None) ∧ url c = Some u ∧ url.Scheme u ≠ "").
Proof.
  unfold NewClient, bind.
  destruct (NewClient_options options _ w) as [w1 [[c1 [e|]]|]]; [..|done].
  - intros [= _ <-]. by eauto.
  - destruct (url c1) as [u|] eqn:Hu; [|intros [= _ <-]; by eauto].
    destruct (url.IsAbs u) eqn:Habs; simpl; intros [= _ <-]; [|by eauto].
    right. exists c1, u. repeat split; [done|].
    unfold url.IsAbs in Habs. intros Hs.
    by rewrite bool_decide_eq_true_2 in Habs.
Qed.

(** X13: what [NewClient] returns is well formed: either no client and an
    error, or a client and no error, and then the client's URL is set and
    has a scheme. *)
Theorem NewClient_result (options : list ClientOption) (w w' : World) res :
  NewClient options w = (w', Returns res) →
  (∃ e, res = (None, Some e))
  ∨ (∃ c u, res = (Some c, None) ∧ url c = Some u ∧ url.Scheme u ≠ "").
Proof. apply NewClient_returns_inv. Qed.

End construction_invariants.

(** ** The typed requests on the wire *)

Lemma endpoint_paths :
  (rooted authLoginPath ∧ dot_free authLoginPath)
  ∧ rooted downloadTaskPath ∧ dot_free downloadTaskPath.
Proof.
  repeat split; try (by eexists); unfold dot_free; simpl;
    repeat (constructor; [split; discriminate|]); constructor.
Qed.


Section typed_requests.
Context `{Platform}.

Lemma Do_rooted `{Unmarshaler D} (c : Client) r (data : option D) w u t :
  url c = Some u → transport c = Some t →
  rooted (Path r) → dot_free (Path r) →
  ∃ hreq res,
    Do c r data w = (w ++ [hreq], Returns res)
    ∧ url.Path (http_URL hreq) = Path r
    ∧ url.Host (http_URL hreq) = url.Host u
    ∧ url.Scheme (http_URL hreq) = url.Scheme u.
Proof.
  intros Hu Ht Hroot Hdots.
  destruct (Do_returns c r data w u t Hu Ht) as [res Hdo].
  exists (http_request u c r), res. split; [done|]. simpl.
  by rewrite ResolveReference_rooted.
Qed.

(** X16: on a client with URL and transport, [Call] on a typed request makes
    one request, to the endpoint of the request's type on the host and with
    the scheme of the base URL: [/webapi/auth.cgi] for a login,
    [/webapi/DownloadStation/task.cgi] for listing and creating tasks;
    whatever path the base URL has. *)
Theorem typed_request_endpoint `{Unmarshaler D} (c : Client)
    (data : option D) (w : World) u t :
  url c = Some u → transport c = Some t →
  (∀ a : AuthLogin, ∃ hreq res,
     Call c a data w = (w ++ [hreq], Returns res)
     ∧ url.Path (http_URL hreq) = "/webapi/auth.cgi"
     ∧ url.Host (http_URL hreq) = url.Host u
     ∧ url.Scheme (http_URL hreq) = url.Scheme u)
  ∧ (∀ d : DownloadTaskList, ∃ hreq res,
       Call c d data w = (w ++ [hreq], Returns res)
       ∧ url.Path (http_URL hreq) = "/webapi/DownloadStation/task.cgi"
       ∧ url.Host (http_URL hreq) = url.Host u
       ∧ url.Scheme (http_URL hreq) = url.Scheme u)
  ∧ (∀ d : DownloadTaskCreate, ∃ hreq res,
       Call c d data w = (w ++ [hreq], Returns res)
       ∧ url.Path (http_URL hreq) = "/webapi/DownloadStation/task.cgi"
       ∧ url.Host (http_URL hreq) = url.Host u
       ∧ url.Scheme (http_URL hreq) = url.Scheme u).
Proof.
  intros Hu Ht. destruct endpoint_paths as ([Ha1 Ha2] & Hd1 & Hd2).
  split; [|split]; intros x;
    rewrite (Call_marshaled c x data _ eq_refl);
    match goal with
    | |- context [Do c ?r _ _] => apply (Do_rooted c r data w u t Hu Ht)
    end; assumption.
Qed.

End typed_requests.

(** ** Login during construction, continued *)

Section login_more.
Context `{Platform} `{Unmarshaler AuthLoginResponse}.

Lemma ClientLogin_nil l c w :
  url c = None ∨ transport c = None → ClientLogin l c w = (w, Panics).
Proof.
  intros Hc. unfold ClientLogin, bind.
  by rewrite (Call_marshaled c (set_Format "sid" l) _ _ eq_refl), Do_nil.
Qed.

(** X17: the order of the options matters. A login option met while the
    client has no URL yet (or a nil transport) dereferences nil: [NewClient]
    panics, and no request is made. In particular a login option put first
    always panics. *)
Theorem ClientLogin_before_URL (l : AuthLogin) (pre post : list ClientOption)
    (w w1 : World) (c : Client) :
  options_applied pre initial_client w c w1 →
  url c = None ∨ transport c = None →
  NewClient (pre ++ ClientLogin l :: post) w = (w1, Panics)
  ∧ NewClient (ClientLogin l :: post) w = (w, Panics).
Proof.
  assert (Hpanic : ∀ pre w c w1,
    options_applied pre initial_client w c w1 →
    url c = None ∨ transport c = None →
    NewClient (pre ++ ClientLogin l :: post) w = (w1, Panics)).
  { intros pre' w' c' w1' Hpre Hc. unfold NewClient, bind.
    fold initial_client.
    rewrite (NewClient_options_app _ _ _ _ _ _ Hpre). simpl. unfold bind.
    by rewrite ClientLogin_nil. }
  intros Hpre Hc. split; [by eapply Hpanic|].
  apply (Hpanic [] w initial_client w); [constructor|by left].
Qed.

End login_more.

Section execution_inv.
Context `{Platform}.

(** X19: no error means success. When [Do] returns without error, the
    client had a URL and a transport, the transport answered, the body
    decoded to an envelope whose [success] is true, and the destination, if
    there is one, is what unmarshaling the payload into it gave, without
    error. *)
Theorem Do_no_error_inv `{Unmarshaler D} (c : Client) (r : Request)
    (data d' : option D) (w w' : World) :
  Do c r data w = (w', Returns (d', None)) →
  ∃ u t body resp,
    url c = Some u ∧ transport c = Some t
    ∧ w' = w ++ [http_request u c r]
    ∧ t w (http_request u c r) = inl body
    ∧ json_Decode body = inl resp
    ∧ Success resp = true
    ∧ (data = None ∧ d' = None
       ∨ ∃ d d1, data = Some d ∧ d' = Some d1
                 ∧ json_Unmarshal (Data resp) d = (d1, None)).
Proof.
  unfold Do, bind, RoundTrip, ret, panic.
  destruct (url c) as [u|]; [|done]. destruct (transport c) as [t|]; [|done].
  destruct (t w (http_request u c r)) as [body|e] eqn:Hb; [|done].
  destruct (json_Decode body) as [resp|e] eqn:Hd; [|done].
  destruct (Success resp) eqn:Hs; [|done]. simpl.
  destruct data as [d|].
  - destruct (json_Unmarshal (Data resp) d) as [d1 [e|]] eqn:Hj; [done|].
    intros [= <- <-]. exists u, t, body, resp.
    repeat split; try done. right. by eauto.
  - intros [= <- <-]. exists u, t, body, resp.
    repeat split; try done. by left.
Qed.

End execution_inv.

(** ** The query of the request, continued *)

Section query_more.
Context `{Platform}.


(** X9: the query can be read back. Every piece of the query string of the
    request [Do] makes, split at [&], splits at [=] into exactly two parts,
    which unescape to a key and a value that [Do] was to send under that
    key: a [&] or [=] inside a key or a value neither adds nor cuts a
    piece. *)
Theorem Do_query_unambiguous `{Unmarshaler D} (c : Client) (r : Request)
    (data : option D) (w : World) u t :
  url c = Some u → transport c = Some t →
  ∃ hreq res,
    Do c r data w = (w ++ [hreq], Returns res)
    ∧ ∀ x, x ∈ strings_Split (url.RawQuery (http_URL hreq)) "&" →
        ∃ k e k' e',
          strings_Split x "=" = [k'; e']
          ∧ url.unescape k' url.encodeQueryComponent = Some k
          ∧ url.unescape e' url.encodeQueryComponent = Some e
          ∧ e ∈ sent_values c r k.
Proof.
  intros Hu Ht.
  destruct (Do_request c r data w u t Hu Ht) as (hreq & res & Hdo & _ & _ & Hs).
  exists hreq, res. split; [done|]. intros x. rewrite Hs.
  intros (k & e & -> & He)%elem_of_encode_components_inv.
  exists k, e, (url.QueryEscape k), (url.QueryEscape e).
  split; [apply strings_Split_component|].
  split; [apply QueryUnescape_escape|]. split; [apply QueryUnescape_escape|].
  unfold sent_values. by rewrite <-outgoing_values.
Qed.

(** X20: the query is canonical. The query string of the request [Do] makes
    is the join by [&] of the pieces of its keys, taken in sorted order, each
    key once and exactly the keys that have a value to send; the pieces of a
    key are its values in order, the one [Do] gives the key first, then those
    of the request's parameter as the request has them. The order in which
    the map of parameters is ranged over does not show. *)
Theorem Do_query_canonical `{Unmarshaler D} (c : Client) (r : Request)
    (data : option D) (w : World) u t :
  url c = Some u → transport c = Some t →
  ∃ hreq res keys,
    Do c r data w = (w ++ [hreq], Returns res)
    ∧ StronglySorted String.le keys ∧ NoDup keys
    ∧ (∀ k, k ∈ keys ↔ sent_values c r k ≠ [])
    ∧ url.RawQuery (http_URL hreq)
      = strings_Join
          (keys ≫= λ k,
             (λ e, url.QueryEscape k +:+ "=" +:+ url.QueryEscape e)
               <$> sent_values c r k) "&".
Proof.
  intros Hu Ht.
  destruct (Do_request c r data w u t Hu Ht) as (hreq & res & Hdo & _ & Hq & _).
  exists hreq, res, (merge_sort String.le (map_to_list (outgoing c r)).*1).
  assert (Hsent : ∀ k, url.values_of (outgoing c r) k = sent_values c r k)
    by (intros k; apply outgoing_values).
  split; [done|].
  split; [apply StronglySorted_merge_sort; apply _|].
  split; [rewrite merge_sort_Permutation; apply NoDup_fst_map_to_list|].
  split.
  - intros k. rewrite <-Hsent, elem_of_encode_keys, outgoing_lookup.
    case_decide as Hk; split; try done; by intros [? [=]] || by eauto.
  - rewrite Hq. unfold url.Encode, url.encode_components. f_equal.
    apply list_bind_ext; [|done]. intros k. unfold url.encode_key.
    by rewrite Hsent.
Qed.

(** X14: whatever goes through a constructed client is well formed: a
    request that [Do] makes on a client returned by [NewClient] is a [GET]
    without headers, to a URL that has a scheme, the one of the client's base
    URL. *)
Theorem constructed_client_requests `{Unmarshaler D}
    (options : list ClientOption) (w w0 : World) (c : Client)
    (r : Request) (data : option D) (w1 w' : World) out :
  NewClient options w = (w0, Returns (Some c, None)) →
  Do c r data w1 = (w', out) →
  w' = w1
  ∨ ∃ hreq u, w' = w1 ++ [hreq]
      ∧ url c = Some u
      ∧ http_Method hreq = "GET"
      ∧ http_Header hreq = ∅
      ∧ url.Scheme (http_URL hreq) = url.Scheme u
      ∧ url.IsAbs (http_URL hreq) = true.
Proof.
  intros Hnew Hdo.
  destruct (NewClient_returns_inv _ _ _ _ Hnew)
    as [(e & [=])|(c' & u & [= <-] & Hu & Hscheme)].
  destruct (transport c) as [t|] eqn:Ht.
  - destruct (Do_request c r data w1 u t Hu Ht)
      as (hreq & res & Hdo' & -> & _).
    rewrite Hdo' in Hdo. injection Hdo as <- _. right.
    exists (http_request u c r), u.
    destruct (ResolveReference_query u (Path r) (url.Encode (outgoing c r))
                (Encode_outgoing_nonempty c r)) as (_ & Hs & _).
    repeat split; [done..|].
    unfold url.IsAbs. simpl. rewrite Hs. by rewrite bool_decide_eq_false_2.
  - rewrite Do_nil in Hdo by auto. injection Hdo as <- _. by left.
Qed.

End query_more.

Section typed_sid.
Context `{Platform}.



End typed_sid.

Section session.
Context `{Platform} `{Unmarshaler AuthLoginResponse}.


End session.

(** ** The further properties at work on the example platform *)

Lemma Error_Error_distinct_witness :
  Error_Error ErrorSessionTimeout ≠ Error_Error 42%Z
  ∧ Error_Error 7%Z ≠ Error_Error (-7)%Z.
Proof.
  split.
  - apply (Error_Error_distinct ErrorSessionTimeout 42%Z). discriminate.
  - apply (Error_Error_distinct 7%Z (-7)%Z). discriminate.
Defined.

Lemma Do_error_verbatim_witness :
  Do (H := example_platform) (H0 := example_Unmarshal_string)
    (example_client example_base (transport_error (ForeignError "down")))
    example_request (Some "kept") []
  = ([http_request example_base
        (example_client example_base (transport_error (ForeignError "down")))
        example_request],
     Returns (Some "kept", Some (ForeignError "down")))
  ∧ Do (H := example_platform) (H0 := example_Unmarshal_string)
      (example_client example_base (transport_body "."))
      example_request (Some "kept") []
    = ([http_request example_base
          (example_client example_base (transport_body "."))
          example_request],
       Returns (Some "kept", Some (ForeignError "invalid character"))).
Proof.
  split.
  - apply (proj1 (@Do_error_verbatim example_platform string
             example_Unmarshal_string
             (example_client example_base
                (transport_error (ForeignError "down")))
             example_request (Some "kept") [] example_base
             (transport_error (ForeignError "down")) eq_refl eq_refl)).
    reflexivity.
  - apply (proj2 (@Do_error_verbatim example_platform string
             example_Unmarshal_string
             (example_client example_base (transport_body "."))
             example_request (Some "kept") [] example_base
             (transport_body ".") eq_refl eq_refl) ".").
    + reflexivity.
    + reflexivity.
Defined.

Lemma NewClient_offline_witness :
  ∃ res,
    NewClient (H := example_platform)
      [ClientRawURL (H := example_platform) "http://foo.com/";
       ClientTransport None; ClientSID "s"; ClientURL None] []
    = ([], Returns res).
Proof.
  apply (@NewClient_offline example_platform).
  repeat first [apply List.Forall_nil | apply List.Forall_cons];
    constructor.
Defined.

Lemma NewClient_last_option_witness :
  NewClient (H := example_platform)
    ([ClientURL (Some example_base); ClientSID "first"] ++ [ClientSID "last"])
    []
  = ([], Returns (Some {| url := Some example_base;
                          transport := Some (http_DefaultTransport
                                               (Platform := example_platform));
                          sid := "last" |}, None)).
Proof.
  apply (proj1 (@NewClient_last_option example_platform
           [ClientURL (Some example_base); ClientSID "first"] [] []
           {| url := Some example_base;
              transport := Some (http_DefaultTransport
                                   (Platform := example_platform));
              sid := "first" |}
           (applied_cons _ _ _ _ _ _ _ _ eq_refl
              (applied_cons _ _ _ _ _ _ _ _ eq_refl (applied_nil _ _))))
           "last" example_base eq_refl eq_refl).
Defined.

Lemma NewClient_result_witness :
  (∃ e, (Some (example_client example_base
                 (http_DefaultTransport (Platform := example_platform))),
         @None error) = (None, Some e))
  ∨ (∃ c u, (Some (example_client example_base
                     (http_DefaultTransport (Platform := example_platform))),
             @None error) = (Some c, None)
            ∧ url c = Some u ∧ url.Scheme u ≠ "").
Proof.
  exact (@NewClient_result example_platform [ClientURL (Some example_base)]
           [] [] _ eq_refl).
Defined.

Lemma typed_request_endpoint_witness :
  ∃ hreq res,
    Call (H := example_platform) (H1 := example_Unmarshal_string)
      (example_client base_with_path (transport_body "T"))
      {| Offset := 0; Limit := 10; Additional := ["detail"] |} None []
    = ([] ++ [hreq], Returns res)
    ∧ url.Path (http_URL hreq) = "/webapi/DownloadStation/task.cgi"
    ∧ url.Host (http_URL hreq) = "foo.com"
    ∧ url.Scheme (http_URL hreq) = "http".
Proof.
  destruct (@typed_request_endpoint example_platform string
              example_Unmarshal_string
              (example_client base_with_path (transport_body "T")) None []
              base_with_path (transport_body "T") eq_refl eq_refl)
    as (_ & Hlist & _).
  exact (Hlist {| Offset := 0; Limit := 10; Additional := ["detail"] |}).
Defined.

Lemma ClientLogin_before_URL_witness :
  NewClient (H := example_platform)
    ([] ++ ClientLogin (H := example_platform)
             (H0 := example_Unmarshal_AuthLoginResponse) example_login
           :: [ClientURL (Some example_base)]) []
  = ([], Panics)
  ∧ NewClient (H := example_platform)
      (ClientLogin (H := example_platform)
         (H0 := example_Unmarshal_AuthLoginResponse) example_login
       :: [ClientURL (Some example_base)]) []
    = ([], Panics).
Proof.
  exact (@ClientLogin_before_URL example_platform
           example_Unmarshal_AuthLoginResponse example_login []
           [ClientURL (Some example_base)] [] []
           (initial_client (H := example_platform))
           (applied_nil _ _) (or_introl eq_refl)).
Defined.

Lemma Do_no_error_inv_witness :
  ∃ u t body resp,
    url (example_client example_base (transport_body "Tdata")) = Some u
    ∧ transport (example_client example_base (transport_body "Tdata"))
      = Some t
    ∧ [http_request example_base
         (example_client example_base (transport_body "Tdata"))
         example_request]
      = [] ++ [http_request u
                 (example_client example_base (transport_body "Tdata"))
                 example_request]
    ∧ t [] (http_request u
              (example_client example_base (transport_body "Tdata"))
              example_request) = inl body
    ∧ json_Decode (Platform := example_platform) body = inl resp
    ∧ Success resp = true
    ∧ (Some "" = None ∧ Some "data" = None
       ∨ ∃ d d1, Some "" = Some d ∧ Some "data" = Some d1
                 ∧ json_Unmarshal (Unmarshaler := example_Unmarshal_string)
                     (Data resp) d = (d1, None)).
Proof.
  exact (@Do_no_error_inv example_platform string example_Unmarshal_string
           (example_client example_base (transport_body "Tdata"))
           example_request (Some "") (Some "data") []
           [http_request example_base
              (example_client example_base (transport_body "Tdata"))
              example_request]
           eq_refl).
Defined.


Lemma Do_query_unambiguous_witness :
  ∃ hreq res,
    Do (H := example_platform) (H0 := example_Unmarshal_string)
      (example_client example_base (transport_body "T"))
      request_with_separators None []
    = ([] ++ [hreq], Returns res)
    ∧ ∀ x, x ∈ strings_Split (url.RawQuery (http_URL hreq)) "&" →
        ∃ k e k' e',
          strings_Split x "=" = [k'; e']
          ∧ url.unescape k' url.encodeQueryComponent = Some k
          ∧ url.unescape e' url.encodeQueryComponent = Some e
          ∧ e ∈ sent_values (example_client example_base (transport_body "T"))
                  request_with_separators k.
Proof.
  exact (@Do_query_unambiguous example_platform string
           example_Unmarshal_string
           (example_client example_base (transport_body "T"))
           request_with_separators None [] example_base
           (transport_body "T") eq_refl eq_refl).
Defined.

Lemma Do_query_canonical_witness :
  ∃ hreq res keys,
    Do (H := example_platform) (H0 := example_Unmarshal_string)
      (example_client example_base (transport_body "T"))
      request_with_separators None []
    = ([] ++ [hreq], Returns res)
    ∧ StronglySorted String.le keys ∧ NoDup keys
    ∧ (∀ k, k ∈ keys ↔
            sent_values (example_client example_base (transport_body "T"))
              request_with_separators k ≠ [])
    ∧ url.RawQuery (http_URL hreq)
      = strings_Join
          (keys ≫= λ k,
             (λ e, url.QueryEscape k +:+ "=" +:+ url.QueryEscape e)
               <$> sent_values
                     (example_client example_base (transport_body "T"))
                     request_with_separators k) "&".
Proof.
  exact (@Do_query_canonical example_platform string
           example_Unmarshal_string
           (example_client example_base (transport_body "T"))
           request_with_separators None [] example_base
           (transport_body "T") eq_refl eq_refl).
Defined.

Lemma constructed_client_requests_witness :
  [http_request example_base
     (example_client example_base
        (http_DefaultTransport (Platform := example_platform)))
     request_without_path] = []
  ∨ ∃ hreq u,
      [http_request example_base
         (example_client example_base
            (http_DefaultTransport (Platform := example_platform)))
         request_without_path] = [] ++ [hreq]
      ∧ url (example_client example_base
               (http_DefaultTransport (Platform := example_platform)))
        = Some u
      ∧ http_Method hreq = "GET"
      ∧ http_Header hreq = ∅
      ∧ url.Scheme (http_URL hreq) = url.Scheme u
      ∧ url.IsAbs (http_URL hreq) = true.
Proof.
  exact (@constructed_client_requests example_platform string
           example_Unmarshal_string [ClientURL (Some example_base)] [] []
           (example_client example_base
              (http_DefaultTransport (Platform := example_platform)))
           request_without_path None []
           [http_request example_base
              (example_client example_base
                 (http_DefaultTransport (Platform := example_platform)))
              request_without_path]
           (Returns (None, Some (ForeignError "no network")))
           eq_refl eq_refl).
Defined.


